(** * EM3000S-Controller: the Holmarc electromagnet driver, embedded and checked

    A shallow embedding of [src/HolmarcMagnet.py] (class [controller]).

    - Python [float] is IEEE binary64, modelled by Rocq's primitive floats;
      Python [int] is [Z]; a Python [str] is a [list ascii].
    - A raised exception is the [Raise] branch of [result]; stateful methods
      live in the monad [M], which threads the serial instrument and keeps
      the state reached when an exception escapes.
    - The serial instrument is a script of read outcomes still to come
      together with the trace of everything exchanged so far.  A read past
      the end of the script times out, as a silent line does.
    - [print] calls write to the console only and are left out. *)

From Stdlib Require Import ZArith List Bool Ascii String Lia.
From Stdlib Require Import Strings.Byte.
From Stdlib Require Import Floats.PrimFloat Floats.FloatOps Floats.SpecFloat.
From Stdlib Require Import Floats.FloatAxioms.
From Stdlib Require Import Numbers.Cyclic.Int63.Uint63.
Import ListNotations.

Set Warnings "-inexact-float".
Local Open Scope Z_scope.

(* ===================================================================== *)
(** * Python values, exceptions and builtins *)
(* ===================================================================== *)

Module Py.

(** The exceptions the driver can meet. *)
Inductive exn : Type :=
| ValueError
| OverflowError
| IndexError
| TypeError
| AttributeError (name : string)
| VisaIOError.

(** Outcome of evaluating an expression: a value or a raised exception. *)
Inductive result (A : Type) : Type :=
| Val (a : A)
| Raise (e : exn).
Arguments Val {A} a.
Arguments Raise {A} e.

Definition bindR {A B : Type} (r : result A) (k : A -> result B) : result B :=
  match r with
  | Val a => k a
  | Raise e => Raise e
  end.

(** What a method can hand back to its caller. *)
Inductive value : Type :=
| PyNone
| PyFloat (f : float)
| PyStr (s : string).

Definition str : Type := list ascii.

Definition lit (s : string) : str := list_ascii_of_string s.

(** ** [hex] *)

Definition hexdigit (d : Z) : ascii :=
  nth (Z.to_nat d) (lit "0123456789abcdef") "?"%char.

(** Digits of [n], most significant first, no leading zero; one digit for
    every four bits, so [fuel] above [Z.log2 n] is never exhausted. *)
Fixpoint hex_digits (fuel : nat) (n : Z) : str :=
  match fuel with
  | O => []
  | S fuel' =>
      if n <? 16 then [hexdigit n]
      else hex_digits fuel' (n / 16) ++ [hexdigit (n mod 16)]
  end.

Definition digits_fuel (n : Z) : nat := S (Z.to_nat (Z.log2 n)).

(** [hex(n)]: ['0x...'] for [n >= 0], ['-0x...'] below zero. *)
Definition hex (n : Z) : str :=
  if n <? 0 then lit "-0x" ++ hex_digits (digits_fuel (- n)) (- n)
  else lit "0x" ++ hex_digits (digits_fuel n) n.

(** ** Slices, [split] and indexing *)

(** [s[-k:]] *)
Definition slice_last {A : Type} (k : nat) (s : list A) : list A :=
  skipn (List.length s - k) s.

(** [s[:-k]] *)
Definition slice_drop_last {A : Type} (k : nat) (s : list A) : list A :=
  firstn (List.length s - k) s.

(** [s.split(sep)] for a one-character separator. *)
Fixpoint split (sep : ascii) (s : str) : list str :=
  match s with
  | [] => [[]]
  | c :: s' =>
      if Ascii.eqb c sep then [] :: split sep s'
      else match split sep s' with
           | h :: t => (c :: h) :: t
           | [] => [[c]]
           end
  end.

(** [l[k]] for [k >= 0]. *)
Definition getitem {A : Type} (l : list A) (k : nat) : result A :=
  match nth_error l k with
  | Some a => Val a
  | None => Raise IndexError
  end.

(** [l[k] = v] for [0 <= k < len(l)]; [l] is returned updated. *)
Fixpoint setitem {A : Type} (l : list A) (k : nat) (v : A) : result (list A) :=
  match l, k with
  | [], _ => Raise IndexError
  | _ :: t, O => Val (v :: t)
  | h :: t, S k' => bindR (setitem t k' v) (fun t' => Val (h :: t'))
  end.

(** [l[-1] = v] *)
Definition setitem_last {A : Type} (l : list A) (v : A) : result (list A) :=
  match l with
  | [] => Raise IndexError
  | _ => setitem l (List.length l - 1) v
  end.

(** ** [int(s, 16)] *)

Definition hexval (c : ascii) : option Z :=
  let n := Z.of_N (N_of_ascii c) in
  if (48 <=? n) && (n <=? 57) then Some (n - 48)
  else if (97 <=? n) && (n <=? 102) then Some (n - 87)
  else if (65 <=? n) && (n <=? 70) then Some (n - 55)
  else None.

Fixpoint digits_value (acc : Z) (s : str) : option Z :=
  match s with
  | [] => Some acc
  | c :: s' =>
      match hexval c with
      | Some d => digits_value (16 * acc + d) s'
      | None => None
      end
  end.

Definition is_x (c : ascii) : bool :=
  Ascii.eqb c "x"%char || Ascii.eqb c "X"%char.

(** [int(s, 16)] on a string without sign, blanks or underscores (none of
    which [hex] produces): an optional [0x] prefix, then at least one
    hexadecimal digit; anything else is a [ValueError]. *)
Definition int16 (s : str) : result Z :=
  let body :=
    match s with
    | z :: x :: rest => if Ascii.eqb z "0"%char && is_x x then rest else s
    | _ => s
    end in
  match body with
  | [] => Raise ValueError
  | _ => match digits_value 0 body with
         | Some v => Val v
         | None => Raise ValueError
         end
  end.

(** ** Numbers *)

(** [float(z)] for an [int] below [2^63] in magnitude (the driver converts
    only the literal 1264 and 16-bit magnitudes). *)
Definition float_of_int (z : Z) : float :=
  if z <? 0 then PrimFloat.opp (PrimFloat.of_uint63 (Uint63.of_Z (- z)))
  else PrimFloat.of_uint63 (Uint63.of_Z z).

(** [int(x)]: truncation toward zero; NaN and the infinities raise. *)
Definition int_of_float (x : float) : result Z :=
  match Prim2SF x with
  | S754_nan => Raise ValueError
  | S754_infinity _ => Raise OverflowError
  | S754_zero _ => Val 0
  | S754_finite s m e =>
      let mag := Z.shiftl (Z.pos m) e in
      Val (if s then - mag else mag)
  end.

(** [round(x)]: to the nearest integer, ties to the even one. *)
Definition round (x : float) : result Z :=
  match Prim2SF x with
  | S754_nan => Raise ValueError
  | S754_infinity _ => Raise OverflowError
  | S754_zero _ => Val 0
  | S754_finite s m e =>
      let mag :=
        if 0 <=? e then Z.shiftl (Z.pos m) e
        else
          let d := 2 ^ (- e) in
          let q := Z.pos m / d in
          let twice_rest := 2 * (Z.pos m mod d) in
          if twice_rest <? d then q
          else if d <? twice_rest then q + 1
          else if Z.even q then q else q + 1 in
      Val (if s then - mag else mag)
  end.

(** [bytes([v])]: one byte, or [ValueError] outside [range(0, 256)]. *)
Definition bytes1 (v : Z) : result byte :=
  if (0 <=? v) && (v <? 256) then
    match Byte.of_N (Z.to_N v) with
    | Some b => Val b
    | None => Raise ValueError
    end
  else Raise ValueError.

(** The [int] read out of a [bytes] object. *)
Definition int_of_byte (b : byte) : Z := Z.of_N (Byte.to_N b).

End Py.

Import Py.

Declare Scope py_scope.
Delimit Scope py_scope with py.
Notation "x <~ e ;; k" := (bindR e (fun x => k))
  (at level 61, e at next level, right associativity) : py_scope.
Local Open Scope py_scope.

(* ===================================================================== *)
(** * The current encoder: [controller.current_map] *)
(* ===================================================================== *)

(** [(1299-35)/(4.0-0.1)] *)
Definition SCALE : float :=
  PrimFloat.div (float_of_int (1299 - 35)) (PrimFloat.sub 4.0%float 0.1%float).

(** Keys of the class attribute [CURRENT_MAP]: floats and one string. *)
Inductive map_key : Type :=
| KFloat (f : float)
| KStr (s : string).

Definition key_eqb (a b : map_key) : bool :=
  match a, b with
  | KFloat x, KFloat y => PrimFloat.eqb x y
  | KStr s, KStr t => String.eqb s t
  | _, _ => false
  end.

(** The lookup table of captured payloads, in source order; keys are
    compared with [==], as a [dict] does. *)
Definition CURRENT_MAP : list (map_key * list Z) :=
  [ (KFloat (-2.0)%float, [0x02; 0x29; 0x00; 0x00]);
    (KFloat (-1.0)%float, [0x00; 0xDE; 0x00; 0x00]);
    (KFloat (-0.1)%float, [0x00; 0x23; 0x00; 0x00]);
    (KFloat 1.0%float,    [0x00; 0xDE; 0x00; 0x01]);
    (KFloat 4.0%float,    [0x05; 0x13; 0x00; 0x01]);
    (KFloat (-4.0)%float, [0x05; 0x13; 0x00; 0x00]);
    (KFloat (-3.9)%float, [0x04; 0xf0; 0x00; 0x00]);
    (KFloat (-3.8)%float, [0x04; 0xcd; 0x00; 0x00]);
    (KStr "test",         [0x05; 0x14; 0x00; 0x00]) ].

Fixpoint lookup (k : map_key) (m : list (map_key * list Z)) : option (list Z) :=
  match m with
  | [] => None
  | (k', v) :: m' => if key_eqb k k' then Some v else lookup k m'
  end.

(** [current_map(self, current_amps)] *)
Definition current_map (current_amps : float) : result (list Z) :=
  let pos := 1 in
  let '(current_amps, pos) :=
    if PrimFloat.ltb current_amps 0%float
    then (PrimFloat.abs current_amps, 0)
    else (current_amps, pos) in
  n <~ int_of_float (PrimFloat.mul SCALE current_amps) ;;
  let mapped := hex n in
  let return_list := repeat 0x00 4 in
  low <~ int16 (slice_last 2 mapped) ;;
  return_list <~ setitem return_list 1 low ;;
  after_x <~ getitem (split "x" mapped) 1 ;;
  let zeroth := slice_drop_last 2 after_x in
  return_list <~
    match zeroth with
    | [] => Val return_list
    | _ => high <~ int16 zeroth ;; setitem return_list 0 high
    end ;;
  return_list <~ setitem_last return_list pos ;;
  Val return_list.

(** The encoder as the specification words it: rounded counts, split by
    shift and mask. *)
Definition encode_ref (amps : float) : result (list Z) :=
  let a := PrimFloat.abs amps in
  let sign := if PrimFloat.leb 0%float amps then 0x01 else 0x00 in
  counts <~ round (PrimFloat.mul a SCALE) ;;
  Val [Z.shiftr counts 8; Z.land counts 0xFF; 0x00; sign].

(** [decode_sign]: the payload's last byte read back as "non-negative". *)
Definition decode_sign (payload : list Z) : bool :=
  last payload 0 =? 0x01.

(* ===================================================================== *)
(** * The serial instrument behind [self.inst] *)
(* ===================================================================== *)

(** What crosses the link, in order, plus the holds of [pulse]. *)
Inductive event : Type :=
| Wrote (b : byte)
| Got (b : byte)
| TimedOut
| Slept (d : float).

(** [pending]: the outcome of each read still to come ([None]: that read
    runs into the 2-second timeout).  [trace]: what happened so far. *)
Record instrument : Type := mkInstrument {
  pending : list (option byte);
  trace : list event
}.

(** Methods of the connected controller: state in, outcome and state out. *)
Definition M (A : Type) : Type := instrument -> result A * instrument.

Definition ret {A : Type} (a : A) : M A := fun i => (Val a, i).

Definition bind {A B : Type} (c : M A) (k : A -> M B) : M B :=
  fun i =>
    match c i with
    | (Val a, i') => k a i'
    | (Raise e, i') => (Raise e, i')
    end.

Definition lift {A : Type} (r : result A) : M A := fun i => (r, i).

(** [try: c / except VisaIOError: h] *)
Definition try_except_VisaIOError {A : Type} (c : M A) (h : M A) : M A :=
  fun i =>
    match c i with
    | (Raise VisaIOError, i') => h i'
    | other => other
    end.

Definition log (e : event) : M unit :=
  fun i => (Val tt, mkInstrument (pending i) (trace i ++ [e])).

Notation "x <- c ;; k" := (bind c (fun x => k))
  (at level 61, c at next level, right associativity) : py_scope.
Notation "c ;; k" := (bind c (fun _ => k))
  (at level 61, right associativity) : py_scope.

(** One byte off the line, or the timeout. *)
Definition read_byte : M byte :=
  fun i =>
    match pending i with
    | Some b :: rest => (Val b, mkInstrument rest (trace i ++ [Got b]))
    | None :: rest => (Raise VisaIOError, mkInstrument rest (trace i ++ [TimedOut]))
    | [] => (Raise VisaIOError, mkInstrument [] (trace i ++ [TimedOut]))
    end.

(** [inst.read_bytes(count)] *)
Fixpoint read_bytes (count : nat) : M (list byte) :=
  match count with
  | O => ret []
  | S n => b <- read_byte ;; rest <- read_bytes n ;; ret (b :: rest)
  end.

(** [inst.write_raw(data)] *)
Fixpoint write_raw (data : list byte) : M unit :=
  match data with
  | [] => ret tt
  | b :: rest => log (Wrote b) ;; write_raw rest
  end.

(** [inst.write_raw(bytes([v]))] *)
Definition write_raw_bytes (v : Z) : M unit :=
  b <- lift (bytes1 v) ;; write_raw [b].

(** The bytes written, in order. *)
Fixpoint writes (tr : list event) : list byte :=
  match tr with
  | [] => []
  | Wrote b :: tr' => b :: writes tr'
  | _ :: tr' => writes tr'
  end.

(* ===================================================================== *)
(** * The protocol methods of [controller] *)
(* ===================================================================== *)

(** [_read_one_byte(self)] *)
Definition _read_one_byte : M (option Z) :=
  try_except_VisaIOError
    (data <- read_bytes 1 ;; b <- lift (getitem data 0) ;; ret (Some (int_of_byte b)))
    (ret None).

(** The [while True] loop of [_poll_for_byte].  Every turn takes one
    outcome off [pending] and an empty [pending] times out, so the loop
    makes at most [length pending + 1] turns; [turns] is that bound, and
    the branch for no turns left is never taken. *)
Fixpoint poll_loop (turns : nat) (expected_byte : Z) : M (option Z) :=
  match turns with
  | O => lift (Raise VisaIOError)
  | S turns' =>
      data <- read_bytes 1 ;;
      b <- lift (getitem data 0) ;;
      let response := int_of_byte b in
      if response =? expected_byte then ret (Some response)
      else poll_loop turns' expected_byte
  end.

(** [_poll_for_byte(self, expected_byte)] *)
Definition _poll_for_byte (expected_byte : Z) : M (option Z) :=
  fun i =>
    try_except_VisaIOError
      (poll_loop (S (List.length (pending i))) expected_byte)
      (ret None) i.

(** [_run_start_sequence(self, value_bytes)] *)
Definition _run_start_sequence (value_bytes : list Z) : M unit :=
  write_raw_bytes 0x64 ;; _read_one_byte ;;
  write_raw_bytes 0x64 ;; _read_one_byte ;;
  write_raw_bytes 0x1E ;; _poll_for_byte 0x12 ;;
  write_raw_bytes 0x64 ;; _read_one_byte ;;
  write_raw_bytes 0x2C ;; _read_one_byte ;;
  v0 <- lift (getitem value_bytes 0) ;; write_raw_bytes v0 ;; _read_one_byte ;;
  v1 <- lift (getitem value_bytes 1) ;; write_raw_bytes v1 ;; _read_one_byte ;;
  v2 <- lift (getitem value_bytes 2) ;; write_raw_bytes v2 ;; _read_one_byte ;;
  v3 <- lift (getitem value_bytes 3) ;; write_raw_bytes v3 ;; _read_one_byte ;;
  write_raw_bytes 0x00 ;; _poll_for_byte 0x12 ;;
  ret tt.

(** [set_current(self, amps)] *)
Definition set_current (amps : float) : M unit :=
  value_bytes <- lift (current_map amps) ;;
  _run_start_sequence value_bytes.

(** The decoding at the end of [stop_and_query_field].  Integer shifts,
    a float division and a negation raise nothing, so the surrounding
    [try] never reaches its handler. *)
Definition decode_field (byte1 byte2 byte3 : Z) : float :=
  let raw_magnitude := Z.lor (Z.shiftl byte1 8) byte2 in
  let scaled_magnitude := PrimFloat.div (float_of_int raw_magnitude) 10.0%float in
  let final_value :=
    if byte3 =? 0x01 then PrimFloat.opp scaled_magnitude else scaled_magnitude in
  final_value.

(** [stop_and_query_field(self)] *)
Definition stop_and_query_field : M value :=
  write_raw_bytes 0x64 ;; _read_one_byte ;;
  write_raw_bytes 0x2B ;; _poll_for_byte 0x12 ;;
  write_raw_bytes 0x0A ;;
  byte1 <- _read_one_byte ;;
  match byte1 with
  | None => ret (PyStr "Query Failed")
  | Some byte1 =>
  write_raw_bytes byte1 ;;
  byte2 <- _read_one_byte ;;
  match byte2 with
  | None => ret (PyStr "Query Failed")
  | Some byte2 =>
  write_raw_bytes byte2 ;;
  byte3 <- _read_one_byte ;;
  match byte3 with
  | None => ret (PyStr "Query Failed")
  | Some byte3 =>
  write_raw_bytes byte3 ;;
  write_raw_bytes 0x4E ;; _read_one_byte ;;
  write_raw_bytes 0x00 ;;
  write_raw_bytes 0x64 ;; _read_one_byte ;;
  write_raw_bytes 0x82 ;; _poll_for_byte 0x12 ;;
  ret (PyFloat (decode_field byte1 byte2 byte3))
  end end end.

Section Pulse.

(** [time.sleep] is the interpreter's: [sleep_rejects d] is the exception
    it raises for the duration [d], if any (a negative one, for instance). *)
Variable sleep_rejects : float -> option exn.

(** [time.sleep(secs)] *)
Definition time_sleep (secs : float) : M unit :=
  match sleep_rejects secs with
  | Some e => lift (Raise e)
  | None => log (Slept secs)
  end.

(** [pulse(self, amps, duration_sec)]: the body ends without a [return]. *)
Definition pulse (amps duration_sec : float) : M value :=
  set_current amps ;;
  time_sleep duration_sec ;;
  field <- stop_and_query_field ;;
  ret PyNone.

End Pulse.

(** The documented rejection: [ValueError] for a negative duration. *)
Definition rejects_negative (secs : float) : option exn :=
  if PrimFloat.ltb secs 0%float then Some ValueError else None.

(* ===================================================================== *)
(** * Construction: [controller.__init__] and [connect] *)
(* ===================================================================== *)

(** The VISA library as the constructor meets it: what
    [pyvisa.ResourceManager()] and [rm.open_resource(name)] do. *)
Record visa : Type := mkVisa {
  ResourceManager : result unit;
  open_resource : string -> result instrument
}.

(** The attributes [__init__] sets on [self]. *)
Record controller : Type := mkController {
  resource_name : string;
  baud_rate : Z;
  inst : option instrument;
  rm : unit
}.

(** Names bound in the body of [class controller]. *)
Definition class_attributes : list string :=
  [ "CURRENT_MAP"; "current_map"; "__init__"; "connect"; "disconnect";
    "_read_one_byte"; "_poll_for_byte"; "_run_start_sequence"; "set_current";
    "stop_and_query_field"; "current_map_test"; "pulse" ]%string.

(** Names bound on the instance when [__init__] reaches its last line. *)
Definition instance_attributes : list string :=
  [ "resource_name"; "baud_rate"; "inst"; "rm" ]%string.

Definition has_attribute (name : string) : bool :=
  existsb (String.eqb name) (instance_attributes ++ class_attributes).

(** [connect(self)]: [True] with the instrument opened, [False] when VISA
    refuses. *)
Definition connect (lib : visa) (self : controller) : result (bool * controller) :=
  match open_resource lib (resource_name self) with
  | Val i =>
      Val (true, mkController (resource_name self) (baud_rate self) (Some i) (rm self))
  | Raise VisaIOError => Val (false, self)
  | Raise e => Raise e
  end.

(** [disconnect(self)]: closes what is open; the object stays as it is. *)
Definition disconnect (self : controller) : controller := self.

(** [self.<name>()]: look the attribute up, then call it without
    arguments.  A missing name is an [AttributeError].  Of the names that
    exist, [connect] and [disconnect] are the two that can be called this
    way on an object whose [inst] is still [None]; the rest want
    arguments or a connected instrument and are summed up as a
    [TypeError]. *)
Definition call_method (lib : visa) (self : controller) (name : string)
  : result controller :=
  if negb (has_attribute name) then Raise (AttributeError name)
  else if String.eqb name "connect" then
    r <~ connect lib self ;; Val (snd r)
  else if String.eqb name "disconnect" then Val (disconnect self)
  else Raise TypeError.

(** [__init__(self, resource_name)] *)
Definition __init__ (lib : visa) (resource_name : string) : result controller :=
  let baud_rate := 19200 in
  let inst := None in
  rm <~ ResourceManager lib ;;
  let self := mkController resource_name baud_rate inst rm in
  call_method lib self "coonect".

(* ===================================================================== *)
(** * The handshake scripts as the specification lists them *)
(* ===================================================================== *)

(** One unit of a script and its response-handling mode. *)
Inductive HandshakeStep : Type :=
| ACK (b : Z)
| POLL (b expected : Z)
| WRITE (b : Z)
| CAPTURE.

(** Steps in order.  ACK: write, read one byte, discard it.  POLL: write
    once, read until [expected] or a timeout.  WRITE: write only.
    CAPTURE: read one byte and echo it; a timeout aborts the rest. *)
Fixpoint run_script (script : list HandshakeStep) (captured : list Z)
  : M (option (list Z)) :=
  match script with
  | [] => ret (Some captured)
  | ACK b :: rest =>
      write_raw_bytes b ;; _read_one_byte ;; run_script rest captured
  | POLL b expected :: rest =>
      write_raw_bytes b ;; _poll_for_byte expected ;; run_script rest captured
  | WRITE b :: rest =>
      write_raw_bytes b ;; run_script rest captured
  | CAPTURE :: rest =>
      r <- _read_one_byte ;;
      match r with
      | None => ret None
      | Some v => write_raw_bytes v ;; run_script rest (captured ++ [v])
      end
  end.

Definition start_script (payload : list Z) : list HandshakeStep :=
  [ ACK 0x64; ACK 0x64; POLL 0x1E 0x12; ACK 0x64; ACK 0x2C;
    ACK (nth 0 payload 0); ACK (nth 1 payload 0);
    ACK (nth 2 payload 0); ACK (nth 3 payload 0);
    POLL 0x00 0x12 ].

Definition stop_script : list HandshakeStep :=
  [ ACK 0x64; POLL 0x2B 0x12; WRITE 0x0A; CAPTURE; CAPTURE; CAPTURE;
    ACK 0x4E; WRITE 0x00; ACK 0x64; POLL 0x82 0x12 ].

(** The first three steps of the stop-and-query script, up to and
    including the query byte: what runs before the first CAPTURE. *)
Definition stop_prefix : M unit :=
  write_raw_bytes 0x64 ;; _read_one_byte ;;
  write_raw_bytes 0x2B ;; _poll_for_byte 0x12 ;;
  write_raw_bytes 0x0A.

(** The exchange of a successful CAPTURE of each byte of [bs]. *)
Definition echoes (bs : list byte) : list event :=
  flat_map (fun b => [Got b; Wrote b]) bs.

(** Whether the next read on this script times out. *)
Definition times_out (script : list (option byte)) : bool :=
  match script with
  | Some _ :: _ => false
  | _ => true
  end.

(** A scripted line for the examples: every read is answered by [bs] in
    turn, nothing has been exchanged yet. *)
Definition mock (bs : list byte) : instrument :=
  mkInstrument (map Some bs) [].

(** The scripted line of the end-to-end run: ten answers for the start
    sequence, then the stop-and-query answers with captures 0x00, 0xDE,
    0x00. *)
Definition pulse_line : instrument :=
  mock [x00; x00; x12; x00; x00; x00; x00; x00; x00; x12;
        x00; x12; x00; xde; x00; x00; x00; x12].

(* ===================================================================== *)
(** * Predicates used in the statements *)
(* ===================================================================== *)

(** A character that [hex] can put after its prefix. *)
Definition is_digit_char (c : ascii) : Prop :=
  exists d, 0 <= d < 16 /\ c = hexdigit d.

(** [c] always returns, and what it writes on the way is exactly [ws]. *)
Definition emits {A : Type} (c : M A) (ws : list byte) : Prop :=
  forall i, exists a i',
    c i = (Val a, i') /\ writes (trace i') = writes (trace i) ++ ws.

(** The field as the specification words it. *)
Definition field_ref (byte1 byte2 byte3 : Z) : float :=
  let magnitude := Z.lor (Z.shiftl byte1 8) byte2 in
  let field := PrimFloat.div (float_of_int magnitude) 10.0%float in
  if byte3 =? 0x01 then PrimFloat.opp field else field.

(** The line after the hold of [pulse]. *)
Definition held (d : float) (i : instrument) : instrument :=
  mkInstrument (pending i) (trace i ++ [Slept d]).

(** [stop_and_query_field] from its first CAPTURE on. *)
Definition query_tail : M value :=
  byte1 <- _read_one_byte ;;
  match byte1 with
  | None => ret (PyStr "Query Failed")
  | Some byte1 =>
  write_raw_bytes byte1 ;;
  byte2 <- _read_one_byte ;;
  match byte2 with
  | None => ret (PyStr "Query Failed")
  | Some byte2 =>
  write_raw_bytes byte2 ;;
  byte3 <- _read_one_byte ;;
  match byte3 with
  | None => ret (PyStr "Query Failed")
  | Some byte3 =>
  write_raw_bytes byte3 ;;
  write_raw_bytes 0x4E ;; _read_one_byte ;;
  write_raw_bytes 0x00 ;;
  write_raw_bytes 0x64 ;; _read_one_byte ;;
  write_raw_bytes 0x82 ;; _poll_for_byte 0x12 ;;
  ret (PyFloat (decode_field byte1 byte2 byte3))
  end end end.

(** Two runs end in the same state, both raising the same exception or
    both returning, with results related by [R]. *)
Definition agree {A B : Type} (R : A -> B -> Prop)
  (x : result A * instrument) (y : result B * instrument) : Prop :=
  snd x = snd y /\
  match fst x, fst y with
  | Val a, Val b => R a b
  | Raise e, Raise e' => e = e'
  | _, _ => False
  end.

(** How the value of [stop_and_query_field] reads off the captures of
    the script. *)
Definition reading_of (v : value) (captured : option (list Z)) : Prop :=
  match captured with
  | None => v = PyStr "Query Failed"
  | Some [byte1; byte2; byte3] => v = PyFloat (field_ref byte1 byte2 byte3)
  | Some _ => False
  end.

(* ===================================================================== *)
(** * The stand-alone test script: [src/best_test.py] *)
(* ===================================================================== *)

Module best_test.

Definition RESOURCE_NAME : string := "ASRL5::INSTR".

(** The captured payloads the script keeps as constants. *)
Definition VALUE_NEG_2_0_A : list Z := [0x02; 0x29; 0x00; 0x00].
Definition VALUE_NEG_0_1_A : list Z := [0x00; 0x23; 0x00; 0x00].
Definition VALUE_POS_1_0_A : list Z := [0x00; 0xDE; 0x00; 0x01].
Definition VALUE_POS_4_0_A : list Z := [0x05; 0x13; 0x00; 0x01].

(** [read_one_byte(instrument)] *)
Definition read_one_byte : M (option Z) :=
  try_except_VisaIOError
    (response <- read_bytes 1 ;;
     b <- lift (getitem response 0) ;;
     ret (Some (int_of_byte b)))
    (ret None).

(** The [while True] loop of [poll_for_byte], bounded as in the class. *)
Fixpoint poll_loop (turns : nat) (expected_byte : Z) : M (option Z) :=
  match turns with
  | O => lift (Raise VisaIOError)
  | S turns' =>
      response <- read_bytes 1 ;;
      b <- lift (getitem response 0) ;;
      if int_of_byte b =? expected_byte then ret (Some (int_of_byte b))
      else poll_loop turns' expected_byte
  end.

(** [poll_for_byte(instrument, expected_byte)] *)
Definition poll_for_byte (expected_byte : Z) : M (option Z) :=
  fun i =>
    try_except_VisaIOError
      (poll_loop (S (List.length (pending i))) expected_byte)
      (ret None) i.

(** [run_start_sequence(inst, value_bytes)] *)
Definition run_start_sequence (value_bytes : list Z) : M unit :=
  write_raw_bytes 0x64 ;; read_one_byte ;;
  write_raw_bytes 0x64 ;; read_one_byte ;;
  write_raw_bytes 0x1E ;; poll_for_byte 0x12 ;;
  write_raw_bytes 0x64 ;; read_one_byte ;;
  write_raw_bytes 0x2C ;; read_one_byte ;;
  v0 <- lift (getitem value_bytes 0) ;; write_raw_bytes v0 ;; read_one_byte ;;
  v1 <- lift (getitem value_bytes 1) ;; write_raw_bytes v1 ;; read_one_byte ;;
  v2 <- lift (getitem value_bytes 2) ;; write_raw_bytes v2 ;; read_one_byte ;;
  v3 <- lift (getitem value_bytes 3) ;; write_raw_bytes v3 ;; read_one_byte ;;
  write_raw_bytes 0x00 ;; poll_for_byte 0x12 ;;
  ret tt.

(** The decoding at the end of the script's [stop_and_query_field]:
    anything but 0x00 in the sign byte negates. *)
Definition decode_field (byte1 byte2 byte3 : Z) : float :=
  let raw_magnitude := Z.lor (Z.shiftl byte1 8) byte2 in
  let scaled_magnitude := PrimFloat.div (float_of_int raw_magnitude) 10.0%float in
  let final_value :=
    if byte3 =? 0x00 then scaled_magnitude else PrimFloat.opp scaled_magnitude in
  final_value.

(** [stop_and_query_field(inst)] *)
Definition stop_and_query_field : M value :=
  write_raw_bytes 0x64 ;; read_one_byte ;;
  write_raw_bytes 0x2B ;; poll_for_byte 0x12 ;;
  write_raw_bytes 0x0A ;;
  byte1 <- read_one_byte ;;
  match byte1 with
  | None => ret (PyStr "Query Failed: No response")
  | Some byte1 =>
  write_raw_bytes byte1 ;;
  byte2 <- read_one_byte ;;
  match byte2 with
  | None => ret (PyStr "Query Failed: No response")
  | Some byte2 =>
  write_raw_bytes byte2 ;;
  byte3 <- read_one_byte ;;
  match byte3 with
  | None => ret (PyStr "Query Failed: No response")
  | Some byte3 =>
  write_raw_bytes byte3 ;;
  write_raw_bytes 0x4E ;; read_one_byte ;;
  write_raw_bytes 0x00 ;;
  write_raw_bytes 0x64 ;; read_one_byte ;;
  write_raw_bytes 0x82 ;; poll_for_byte 0x12 ;;
  ret (PyFloat (decode_field byte1 byte2 byte3))
  end end end.

(** The main script.  [open_resource] hands over the line as it is once
    configured and cleared.  A [VisaIOError] is caught and reported
    ([None]); otherwise the line is returned as the session left it. *)
Definition main (sleep_rejects : float -> option exn) (lib : visa)
  : result (option instrument) :=
  rm <~ ResourceManager lib ;;
  match open_resource lib RESOURCE_NAME with
  | Raise VisaIOError => Val None
  | Raise e => Raise e
  | Val inst =>
      match (run_start_sequence VALUE_NEG_2_0_A ;;
             time_sleep sleep_rejects 1.0%float ;;
             stop_and_query_field) inst with
      | (Val field_reading, inst') => Val (Some inst')
      | (Raise VisaIOError, _) => Val None
      | (Raise e, _) => Raise e
      end
  end.

End best_test.

(* ===================================================================== *)
(** * The calibration sweep and the script part of [HolmarcMagnet.py] *)
(* ===================================================================== *)

(** What module-level code can end in: a [NameError] for an unbound
    global, or one of the exceptions of [exn]. *)
Inductive raised : Type :=
| NameError (name : string)
| Exn (e : exn).

Section Sweep.

Variable sleep_rejects : float -> option exn.

(** The global name [magnet], which [current_map_test] uses in place of
    [self]: unbound ([None]), or bound to an object whose
    [stop_and_query_field] acts on the line as given. *)
Variable magnet : option (M value).

(** [current_map_test(self)], with [currs] the array that
    [np.arange(-.4,.4,0.1)] returns. *)
Fixpoint current_map_test (currs : list float)
  : instrument -> (unit + raised) * instrument :=
  fun i =>
    match currs with
    | [] => (inl tt, i)
    | curr :: rest =>
        match (set_current curr ;; time_sleep sleep_rejects 2.0%float) i with
        | (Raise e, i1) => (inr (Exn e), i1)
        | (Val _, i1) =>
            match magnet with
            | None => (inr (NameError "magnet"), i1)
            | Some query =>
                match query i1 with
                | (Raise e, i2) => (inr (Exn e), i2)
                | (Val field, i2) => current_map_test rest i2
                end
            end
        end
    end.

End Sweep.

(** What the names bound at module level stand for. *)
Inductive global : Type :=
| G_module (name : string)
| G_class_controller.

(** The module's globals when the script part starts. *)
Definition module_globals : list (string * global) :=
  [ ("pyvisa", G_module "pyvisa"); ("time", G_module "time");
    ("np", G_module "numpy"); ("controller", G_class_controller) ]%string.

Fixpoint lookup_global (name : string) (globals : list (string * global))
  : option global :=
  match globals with
  | [] => None
  | (n, g) :: rest => if String.eqb name n then Some g else lookup_global name rest
  end.

(** The [if __name__ == "__main__":] part: build the magnet, connect,
    sweep, and disconnect whatever the sweep does.  Inside it the global
    [magnet] is the object just built. *)
Definition script_main (sleep_rejects : float -> option exn) (lib : visa)
  (currs : list float) : unit + raised :=
  match lookup_global "HolmarcMagnet" module_globals with
  | None => inr (NameError "HolmarcMagnet")
  | Some (G_module _) => inr (Exn TypeError)
  | Some G_class_controller =>
      match __init__ lib "ASRL5::INSTR" with
      | Raise e => inr (Exn e)
      | Val magnet =>
          match connect lib magnet with
          | Raise e => inr (Exn e)
          | Val (false, _) => inl tt
          | Val (true, magnet) =>
              match inst magnet with
              | None => inr (Exn (AttributeError "NoneType"))
              | Some line =>
                  fst (current_map_test sleep_rejects (Some stop_and_query_field)
                         currs line)
              end
          end
      end
  end.

(* ===================================================================== *)
(** * More predicates for the statements *)
(* ===================================================================== *)

(** A float that is not below zero in sign: no negative finite number,
    no negative infinity. *)
Definition not_negative (f : spec_float) : Prop :=
  match f with
  | S754_finite true _ _ | S754_infinity true => False
  | _ => True
  end.

(** [c] always raises [e], having written exactly [ws] before. *)
Definition raises_after {A : Type} (c : M A) (e : exn) (ws : list byte) : Prop :=
  forall i, exists i',
    c i = (Raise e, i') /\ writes (trace i') = writes (trace i) ++ ws.

(** Every value a byte can hold, [0 .. 255]. *)
Definition byte_values : list Z := map Z.of_nat (seq 0 256).

(** A reading within what two bytes of tenths can spell. *)
Definition reading_in_range (reading : float) : bool :=
  PrimFloat.is_finite reading &&
  PrimFloat.leb (-6553.5)%float reading && PrimFloat.leb reading 6553.5%float.

(** What is checked of the magnitude [n]: both readings it can decode to
    are in range, and [round(10 * abs(reading))] gives [n] back. *)
Definition field_checks (n : Z) : bool :=
  let field := PrimFloat.div (float_of_int n) 10.0%float in
  reading_in_range field && reading_in_range (PrimFloat.opp field) &&
  match round (PrimFloat.mul (PrimFloat.abs field) 10.0%float) with
  | Val m => m =? n
  | Raise _ => false
  end.

(** A current whose counts are at least 16 and fit sixteen bits. *)
Definition encodable (amps : float) : Prop :=
  exists counts,
    int_of_float (PrimFloat.mul SCALE (PrimFloat.abs amps)) = Val counts /\
    16 <= counts < 65536.

(** How the script's reading relates to the class's for the same
    exchange: the same failure under two wordings, or the fields the two
    decoders make of the same three captured bytes. *)
Definition same_reading (script_value class_value : value) : Prop :=
  (script_value = PyStr "Query Failed: No response" /\
   class_value = PyStr "Query Failed") \/
  exists byte1 byte2 byte3 : Z,
    script_value = PyFloat (best_test.decode_field byte1 byte2 byte3) /\
    class_value = PyFloat (decode_field byte1 byte2 byte3).

(* ===================================================================== *)
(** * Facts about the Python builtins *)
(* ===================================================================== *)

Section HexFacts.

Lemma digit_cases (d : Z) :
  0 <= d < 16 ->
  d = 0 \/ d = 1 \/ d = 2 \/ d = 3 \/ d = 4 \/ d = 5 \/ d = 6 \/ d = 7 \/
  d = 8 \/ d = 9 \/ d = 10 \/ d = 11 \/ d = 12 \/ d = 13 \/ d = 14 \/ d = 15.
Proof. lia. Qed.

Ltac each_digit H :=
  apply digit_cases in H;
  repeat (destruct H as [H | H]; [subst; reflexivity |]);
  subst; reflexivity.

Lemma hexval_hexdigit (d : Z) : 0 <= d < 16 -> hexval (hexdigit d) = Some d.
Proof. intros H. each_digit H. Qed.

Lemma hexdigit_not_x (d : Z) : 0 <= d < 16 -> is_x (hexdigit d) = false.
Proof. intros H. each_digit H. Qed.

Lemma hexdigit_not_sep (d : Z) :
  0 <= d < 16 -> Ascii.eqb (hexdigit d) "x"%char = false.
Proof. intros H. each_digit H. Qed.

Lemma hex_digits_chars (fuel : nat) :
  forall n, 0 <= n -> Forall is_digit_char (hex_digits fuel n).
Proof.
  induction fuel as [| fuel IH]; intros n Hn; simpl.
  - constructor.
  - destruct (Z.ltb_spec n 16).
    + constructor; [exists n; split; [lia | reflexivity] | constructor].
    + apply Forall_app. split.
      * apply IH. apply Z.div_pos; lia.
      * constructor; [| constructor].
        exists (n mod 16). split; [apply Z.mod_pos_bound; lia | reflexivity].
Qed.

Lemma digits_value_app (s t : str) :
  forall acc,
    digits_value acc (s ++ t) =
    match digits_value acc s with
    | Some v => digits_value v t
    | None => None
    end.
Proof.
  induction s as [| c s IH]; intros acc; simpl.
  - reflexivity.
  - destruct (hexval c); [apply IH | reflexivity].
Qed.

(** [int(., 16)] reads back what [hex] printed, given enough fuel. *)
Lemma digits_value_hex_digits (fuel : nat) :
  forall n, 0 <= n < 16 ^ Z.of_nat fuel ->
    digits_value 0 (hex_digits fuel n) = Some n.
Proof.
  induction fuel as [| fuel IH]; intros n Hn.
  - simpl in *. f_equal. lia.
  - cbn [hex_digits]. destruct (Z.ltb_spec n 16).
    + cbn [digits_value]. rewrite hexval_hexdigit by lia. f_equal; lia.
    + rewrite digits_value_app, IH.
      * cbn [digits_value].
        rewrite hexval_hexdigit by (apply Z.mod_pos_bound; lia).
        f_equal. pose proof (Z.div_mod n 16). lia.
      * rewrite Nat2Z.inj_succ, Z.pow_succ_r in Hn by lia.
        split; [apply Z.div_pos; lia |].
        apply Z.div_lt_upper_bound; lia.
Qed.

Lemma digits_fuel_enough (n : Z) : 0 <= n -> n < 16 ^ Z.of_nat (digits_fuel n).
Proof.
  intros Hn. unfold digits_fuel.
  rewrite Nat2Z.inj_succ, Z2Nat.id by apply Z.log2_nonneg.
  destruct (Z.eq_dec n 0) as [-> | Hnz].
  - reflexivity.
  - pose proof (Z.log2_spec n ltac:(lia)) as [_ Hlt].
    pose proof (Z.log2_nonneg n) as Hl.
    eapply Z.lt_le_trans; [exact Hlt |].
    change 16 with (2 ^ 4).
    rewrite <- Z.pow_mul_r by lia.
    apply Z.pow_le_mono_r; lia.
Qed.

Lemma hex_digits_nonempty (fuel : nat) (n : Z) :
  (0 < fuel)%nat -> hex_digits fuel n <> [].
Proof.
  destruct fuel as [| fuel]; [lia |]. intros _. cbn [hex_digits].
  destruct (n <? 16); [discriminate |].
  intros H. apply app_eq_nil in H. destruct H as [_ H]. discriminate.
Qed.

(** The shape of [hex(n)] for [n >= 16]: the digits of [n / 256] (none
    when [n < 256]) followed by the two digits of [n mod 256]. *)
Lemma hex_digits_split (fuel : nat) (n : Z) :
  16 <= n < 16 ^ Z.of_nat fuel ->
  exists hi,
    hex_digits fuel n = hi ++ [hexdigit (n / 16 mod 16); hexdigit (n mod 16)] /\
    Forall is_digit_char hi /\
    (n < 256 -> hi = []) /\
    (256 <= n -> hi <> [] /\ digits_value 0 hi = Some (n / 256)).
Proof.
  intros [Hlo Hhi].
  destruct fuel as [| [| fuel]];
    [simpl in Hhi; lia | simpl in Hhi; lia |].
  assert (Hpow : 16 ^ Z.of_nat (S (S fuel)) = 256 * 16 ^ Z.of_nat fuel).
  { rewrite !Nat2Z.inj_succ, !Z.pow_succ_r by lia. lia. }
  rewrite Hpow in Hhi.
  assert (Hq : 0 <= n / 256 < 16 ^ Z.of_nat fuel).
  { split; [apply Z.div_pos; lia | apply Z.div_lt_upper_bound; lia]. }
  assert (Hdd : n / 16 / 16 = n / 256) by (rewrite Z.div_div by lia; reflexivity).
  cbn [hex_digits].
  destruct (Z.ltb_spec n 16) as [| _]; [lia |].
  destruct (Z.ltb_spec (n / 16) 16) as [Hsmall | Hbig].
  - exists []. rewrite (Z.mod_small (n / 16) 16).
    2:{ split; [apply Z.div_pos; lia | assumption]. }
    assert (n < 256) by (pose proof (Z.div_mod n 16); pose proof (Z.mod_pos_bound n 16); lia).
    repeat split; try constructor; try lia.
  - exists (hex_digits fuel (n / 256)).
    assert (256 <= n) by (pose proof (Z.div_mod n 16); pose proof (Z.mod_pos_bound n 16); lia).
    rewrite Hdd, <- app_assoc. repeat split.
    + apply hex_digits_chars. lia.
    + lia.
    + apply hex_digits_nonempty.
      destruct fuel; [| lia].
      simpl in Hq. assert (1 <= n / 256) by (apply Z.div_le_lower_bound; lia). lia.
    + apply digits_value_hex_digits. exact Hq.
Qed.

Lemma split_no_sep (s : str) :
  Forall is_digit_char s -> split "x"%char s = [s].
Proof.
  induction 1 as [| c s [d [Hd ->]] _ IH]; simpl.
  - reflexivity.
  - rewrite hexdigit_not_sep, IH by assumption. reflexivity.
Qed.

Lemma int16_digits (s : str) (v : Z) :
  Forall is_digit_char s -> s <> [] -> digits_value 0 s = Some v ->
  int16 s = Val v.
Proof.
  intros Hs Hne Hv. unfold int16.
  assert (Hbody :
    match s with
    | z :: x :: rest => if Ascii.eqb z "0"%char && is_x x then rest else s
    | _ => s
    end = s).
  { destruct s as [| z [| x rest]]; try reflexivity.
    inversion Hs as [| ? ? _ Hrest]; subst.
    inversion Hrest as [| ? ? [d [Hd ->]] _]; subst.
    rewrite hexdigit_not_x by assumption.
    rewrite andb_false_r. reflexivity. }
  rewrite Hbody. destruct s; [contradiction |]. rewrite Hv. reflexivity.
Qed.

Lemma slice_last_app {A : Type} (s t : list A) :
  slice_last (List.length t) (s ++ t) = t.
Proof.
  unfold slice_last. rewrite length_app.
  replace (List.length s + List.length t - List.length t)%nat with (List.length s) by lia.
  rewrite skipn_app, skipn_all, Nat.sub_diag. reflexivity.
Qed.

Lemma slice_drop_last_app {A : Type} (s t : list A) :
  slice_drop_last (List.length t) (s ++ t) = s.
Proof.
  unfold slice_drop_last. rewrite length_app.
  replace (List.length s + List.length t - List.length t)%nat with (List.length s) by lia.
  rewrite firstn_app, firstn_all, Nat.sub_diag. simpl. apply app_nil_r.
Qed.

End HexFacts.

(* ===================================================================== *)
(** * The encoder on every input *)
(* ===================================================================== *)

Section EncoderFacts.

Lemma two_digits_value (n : Z) :
  0 <= n -> 16 * (n / 16 mod 16) + n mod 16 = n mod 256.
Proof.
  intros Hn. rewrite !Z.mod_eq by lia.
  rewrite Z.div_div by lia. change (16 * 16) with 256. lia.
Qed.

(** What the string surgery of [current_map] makes of [hex(n)], [n >= 16]. *)
Lemma hex_surgery (n : Z) :
  16 <= n ->
  exists hi,
    int16 (slice_last 2 (hex n)) = Val (n mod 256) /\
    getitem (split "x"%char (hex n)) 1 =
      Val (hi ++ [hexdigit (n / 16 mod 16); hexdigit (n mod 16)]) /\
    slice_drop_last 2 (hi ++ [hexdigit (n / 16 mod 16); hexdigit (n mod 16)]) = hi /\
    (n < 256 -> hi = []) /\
    (256 <= n -> hi <> [] /\ int16 hi = Val (n / 256)).
Proof.
  intros Hn.
  destruct (hex_digits_split (digits_fuel n) n) as (hi & Hsplit & Hchars & Hsmall & Hbig).
  { split; [assumption | apply digits_fuel_enough; lia]. }
  assert (Hd1 : 0 <= n / 16 mod 16 < 16) by (apply Z.mod_pos_bound; lia).
  assert (Hd0 : 0 <= n mod 16 < 16) by (apply Z.mod_pos_bound; lia).
  set (lo := [hexdigit (n / 16 mod 16); hexdigit (n mod 16)]) in *.
  assert (Hlo : Forall is_digit_char lo).
  { repeat constructor; eexists; (split; [| reflexivity]); assumption. }
  assert (Hhex : hex n = lit "0x" ++ hi ++ lo).
  { unfold hex. destruct (Z.ltb_spec n 0); [lia |]. rewrite Hsplit. reflexivity. }
  exists hi. rewrite Hhex. repeat split.
  - rewrite app_assoc. change 2%nat with (List.length lo).
    rewrite slice_last_app. apply int16_digits; [assumption | discriminate |].
    unfold lo. cbn [digits_value].
    rewrite !hexval_hexdigit by assumption.
    f_equal. rewrite <- two_digits_value by lia. lia.
  - cbn [lit list_ascii_of_string app split].
    change (Ascii.eqb "0"%char "x"%char) with false.
    change (Ascii.eqb "x"%char "x"%char) with true.
    cbv iota.
    rewrite split_no_sep by (apply Forall_app; split; assumption).
    reflexivity.
  - change 2%nat with (List.length lo). apply slice_drop_last_app.
  - exact Hsmall.
  - apply Hbig. assumption.
  - destruct (Hbig H) as [Hne Hval].
    apply int16_digits; assumption.
Qed.

(** Truncated counts of at least 16 are split as by shift and mask. *)
Lemma current_map_of_counts (amps : float) (counts : Z) :
  int_of_float
    (PrimFloat.mul SCALE
       (if PrimFloat.ltb amps 0%float then PrimFloat.abs amps else amps)) = Val counts ->
  16 <= counts ->
  current_map amps =
    Val [counts / 256; counts mod 256; 0x00;
         if PrimFloat.ltb amps 0%float then 0x00 else 0x01].
Proof.
  intros Hcounts Hn.
  destruct (hex_surgery counts Hn) as (hi & Hlow & Hsplit & Hdrop & Hsmall & Hbig).
  unfold current_map.
  destruct (PrimFloat.ltb amps 0%float);
    rewrite Hcounts; cbn [bindR];
    rewrite Hlow; cbn [bindR repeat setitem];
    rewrite Hsplit; cbn [bindR]; rewrite Hdrop;
    (destruct (Z.ltb_spec counts 256) as [Hlt | Hge];
     [ rewrite (Hsmall Hlt); cbn [bindR]; rewrite Z.div_small by lia; reflexivity
     | destruct (Hbig Hge) as [Hne Hhigh];
       destruct hi as [| c hi']; [contradiction |];
       rewrite Hhigh; reflexivity ]).
Qed.

(** Truncated counts below 16 print as one digit, and the two-character
    slice then starts with the [x] of the prefix. *)
Lemma current_map_small_counts (amps : float) (counts : Z) :
  int_of_float
    (PrimFloat.mul SCALE
       (if PrimFloat.ltb amps 0%float then PrimFloat.abs amps else amps)) = Val counts ->
  0 <= counts < 16 ->
  current_map amps = Raise ValueError.
Proof.
  intros Hcounts Hn. unfold current_map.
  destruct (PrimFloat.ltb amps 0%float); rewrite Hcounts; cbn [bindR];
    apply digit_cases in Hn;
    repeat (destruct Hn as [Hn | Hn]; [subst counts; reflexivity |]);
    subst counts; reflexivity.
Qed.

(** Whenever a payload comes back, its last entry tells whether the
    input compared below zero. *)
Lemma current_map_sign (amps : float) (payload : list Z) :
  current_map amps = Val payload ->
  decode_sign payload = negb (PrimFloat.ltb amps 0%float).
Proof.
  unfold current_map.
  destruct (PrimFloat.ltb amps 0%float);
    (destruct (int_of_float _) as [n |]; cbn [bindR]; [| discriminate]);
    (destruct (int16 _) as [low |]; cbn [bindR repeat setitem]; [| discriminate]);
    (destruct (getitem _ 1) as [after_x |]; cbn [bindR]; [| discriminate]);
    destruct (slice_drop_last 2 after_x) as [| c zeroth]; cbn [bindR];
    try (destruct (int16 _) as [high |]; cbn [bindR setitem]; [| discriminate]);
    intros H; inversion H; reflexivity.
Qed.

End EncoderFacts.

(* ===================================================================== *)
(** * Comparisons and [abs] on binary64 *)
(* ===================================================================== *)

Section FloatFacts.

Lemma Prim2SF_zero : Prim2SF 0%float = S754_zero false.
Proof. reflexivity. Qed.

(** Off NaN, "not below zero" and "at least zero" agree. *)
Lemma not_below_zero (x : float) :
  Prim2SF x <> S754_nan ->
  negb (PrimFloat.ltb x 0%float) = PrimFloat.leb 0%float x.
Proof.
  intros Hnan. rewrite FloatAxioms.ltb_spec, FloatAxioms.leb_spec, Prim2SF_zero.
  destruct (Prim2SF x) as [s | s | | s m e]; try destruct s;
    try reflexivity; contradiction.
Qed.

(** [int] refuses the product of [SCALE] with NaN. *)
Lemma int_of_scaled_nan (x : float) :
  Prim2SF x = S754_nan ->
  int_of_float (PrimFloat.mul SCALE x) = Raise ValueError.
Proof.
  intros Hx. unfold int_of_float. rewrite FloatAxioms.mul_spec, Hx. reflexivity.
Qed.

(** Skipping [abs] for an input that is not below zero changes nothing. *)
Lemma abs_not_needed (x : float) :
  PrimFloat.ltb x 0%float = false ->
  int_of_float (PrimFloat.mul SCALE (PrimFloat.abs x)) =
  int_of_float (PrimFloat.mul SCALE x).
Proof.
  intros H. rewrite FloatAxioms.ltb_spec, Prim2SF_zero in H.
  unfold int_of_float. rewrite !FloatAxioms.mul_spec, FloatAxioms.abs_spec.
  destruct (Prim2SF x) as [s | s | | s m e]; try destruct s;
    try discriminate H; reflexivity.
Qed.

Lemma abs_nan (x : float) :
  Prim2SF x = S754_nan -> Prim2SF (PrimFloat.abs x) = S754_nan.
Proof. intros Hx. rewrite FloatAxioms.abs_spec, Hx. reflexivity. Qed.

(** [(b1 << 8) | b2] is [256 * b1 + b2] when [b2] fits a byte. *)
Lemma lor_shiftl_8 (hi lo : Z) :
  0 <= lo < 256 -> Z.lor (Z.shiftl hi 8) lo = 256 * hi + lo.
Proof.
  intros Hlo.
  assert (Hland : Z.land (Z.shiftl hi 8) lo = 0).
  { apply Z.bits_inj'. intros n Hn.
    rewrite Z.land_spec, Z.bits_0.
    destruct (Z.ltb_spec n 8).
    - rewrite Z.shiftl_spec_low by assumption. reflexivity.
    - destruct (Z.eq_dec lo 0) as [-> | Hnz].
      + rewrite Z.bits_0. apply andb_false_r.
      + assert (Hbit : Z.testbit lo n = false).
        { apply Z.bits_above_log2; [lia |].
          apply Z.lt_le_trans with 8; [| assumption].
          apply Z.log2_lt_pow2; [lia |]. change (2 ^ 8) with 256. lia. }
        rewrite Hbit. apply andb_false_r. }
  pose proof (Z.add_lor_land (Z.shiftl hi 8) lo) as Hadd.
  rewrite Hland in Hadd. rewrite Z.shiftl_mul_pow2 in * by lia.
  change (2 ^ 8) with 256 in *. lia.
Qed.

Lemma int_of_byte_range (b : byte) : 0 <= int_of_byte b < 256.
Proof.
  unfold int_of_byte. pose proof (Byte.to_N_bounded b). lia.
Qed.

Lemma bytes1_int_of_byte (b : byte) : bytes1 (int_of_byte b) = Val b.
Proof.
  unfold bytes1. pose proof (int_of_byte_range b) as H.
  destruct (Z.leb_spec 0 (int_of_byte b)); [| lia].
  destruct (Z.ltb_spec (int_of_byte b) 256); [| lia].
  cbn [andb]. unfold int_of_byte. rewrite N2Z.id, Byte.of_to_N. reflexivity.
Qed.

Lemma bytes1_in_range (v : Z) :
  0 <= v < 256 -> exists b, bytes1 v = Val b /\ int_of_byte b = v.
Proof.
  intros H. unfold bytes1.
  destruct (Z.leb_spec 0 v); [| lia].
  destruct (Z.ltb_spec v 256); [| lia].
  cbn [andb]. destruct (Byte.of_N (Z.to_N v)) as [b |] eqn:E.
  - exists b. split; [reflexivity |].
    unfold int_of_byte. rewrite (Byte.to_of_N _ E). lia.
  - apply Byte.of_N_None_iff in E. lia.
Qed.

Lemma bytes1_out_of_range (v : Z) :
  v < 0 \/ 256 <= v -> bytes1 v = Raise ValueError.
Proof.
  intros H. unfold bytes1.
  destruct (Z.leb_spec 0 v); destruct (Z.ltb_spec v 256);
    try reflexivity; lia.
Qed.

End FloatFacts.

(* ===================================================================== *)
(** * One step on the line *)
(* ===================================================================== *)

Section LineFacts.

Lemma writes_app (t1 t2 : list event) : writes (t1 ++ t2) = writes t1 ++ writes t2.
Proof.
  induction t1 as [| ev t1 IH]; simpl.
  - reflexivity.
  - destruct ev; simpl; rewrite IH; reflexivity.
Qed.

Lemma writes_Got (bs : list byte) : writes (map Got bs) = [].
Proof. induction bs; simpl; auto. Qed.

Lemma writes_echoes (bs : list byte) : writes (echoes bs) = bs.
Proof. induction bs as [| b bs IH]; simpl; [| rewrite IH]; reflexivity. Qed.

(** A write of a value that fits a byte appends exactly that byte. *)
Lemma write_raw_bytes_ok (v : Z) (b : byte) (i : instrument) :
  bytes1 v = Val b ->
  write_raw_bytes v i = (Val tt, mkInstrument (pending i) (trace i ++ [Wrote b])).
Proof.
  intros Hb. unfold write_raw_bytes, bind, lift. rewrite Hb. reflexivity.
Qed.

(** A write of anything else raises before the line is touched. *)
Lemma write_raw_bytes_refused (v : Z) (i : instrument) :
  v < 0 \/ 256 <= v -> write_raw_bytes v i = (Raise ValueError, i).
Proof.
  intros Hv. unfold write_raw_bytes, bind, lift.
  rewrite bytes1_out_of_range by assumption. reflexivity.
Qed.

(** [_read_one_byte] by cases on what the line holds. *)
Lemma _read_one_byte_eq (i : instrument) :
  _read_one_byte i =
  match pending i with
  | Some b :: rest =>
      (Val (Some (int_of_byte b)), mkInstrument rest (trace i ++ [Got b]))
  | None :: rest => (Val None, mkInstrument rest (trace i ++ [TimedOut]))
  | [] => (Val None, mkInstrument [] (trace i ++ [TimedOut]))
  end.
Proof.
  unfold _read_one_byte, try_except_VisaIOError, read_bytes, bind, read_byte, lift, ret.
  destruct (pending i) as [| [b |] rest]; reflexivity.
Qed.

(** The loop of [_poll_for_byte], one turn unrolled. *)
Lemma _poll_for_byte_eq (expected : Z) (i : instrument) :
  _poll_for_byte expected i =
  match pending i with
  | Some b :: rest =>
      if int_of_byte b =? expected
      then (Val (Some (int_of_byte b)), mkInstrument rest (trace i ++ [Got b]))
      else _poll_for_byte expected (mkInstrument rest (trace i ++ [Got b]))
  | None :: rest => (Val None, mkInstrument rest (trace i ++ [TimedOut]))
  | [] => (Val None, mkInstrument [] (trace i ++ [TimedOut]))
  end.
Proof.
  destruct i as [p tr]. cbn [pending trace].
  destruct p as [| [b |] rest]; try reflexivity.
  unfold _poll_for_byte. cbn [pending List.length poll_loop read_bytes].
  unfold try_except_VisaIOError, bind, read_byte, lift, ret, getitem.
  cbn [pending trace nth_error].
  destruct (int_of_byte b =? expected); reflexivity.
Qed.

(** The bound on the turns never ends the loop: any larger one gives the
    same run. *)
Lemma poll_loop_bound_slack (expected : Z) :
  forall (turns : nat) (i : instrument),
    (List.length (pending i) < turns)%nat ->
    try_except_VisaIOError (poll_loop turns expected) (ret None) i =
    _poll_for_byte expected i.
Proof.
  intros turns i. destruct i as [p tr]. revert turns tr.
  induction p as [| r p IH]; intros turns tr Hlen; cbn [pending] in Hlen.
  - destruct turns as [| turns]; [simpl in Hlen; lia |]. reflexivity.
  - destruct turns as [| turns]; [simpl in Hlen; lia |].
    rewrite _poll_for_byte_eq. cbn [pending trace].
    destruct r as [b |]; [| reflexivity].
    specialize (IH turns (tr ++ [Got b])).
    cbn [pending List.length] in IH, Hlen.
    rewrite <- IH by lia.
    unfold try_except_VisaIOError, bind, read_byte, lift, ret, getitem.
    cbn [poll_loop read_bytes].
    unfold try_except_VisaIOError, bind, read_byte, lift, ret, getitem.
    cbn [pending trace nth_error].
    destruct (int_of_byte b =? expected); reflexivity.
Qed.

End LineFacts.

(* ===================================================================== *)
(** * What a sequence of steps writes *)
(* ===================================================================== *)

Section Emission.

Lemma emits_ret {A : Type} (a : A) : emits (ret a) [].
Proof.
  intros i. exists a, i. split; [reflexivity | symmetry; apply app_nil_r].
Qed.

Lemma emits_bind {A B : Type} (c : M A) (k : A -> M B) (ws1 ws2 : list byte) :
  emits c ws1 -> (forall a, emits (k a) ws2) -> emits (bind c k) (ws1 ++ ws2).
Proof.
  intros Hc Hk i.
  destruct (Hc i) as (a & i1 & Hrun & Hw).
  destruct (Hk a i1) as (b & i2 & Hrun2 & Hw2).
  exists b, i2. unfold bind. rewrite Hrun, Hrun2. split; [reflexivity |].
  rewrite Hw2, Hw, app_assoc. reflexivity.
Qed.

Lemma emits_write (v : Z) (b : byte) :
  bytes1 v = Val b -> emits (write_raw_bytes v) [b].
Proof.
  intros Hb i. exists tt. eexists. split.
  - apply write_raw_bytes_ok. exact Hb.
  - cbn [trace]. rewrite writes_app. reflexivity.
Qed.

Lemma emits_read : emits _read_one_byte [].
Proof.
  intros i. rewrite _read_one_byte_eq.
  destruct (pending i) as [| [b |] rest]; eexists; eexists;
    (split; [reflexivity |]); cbn [trace]; rewrite writes_app; reflexivity.
Qed.

Lemma emits_poll (expected : Z) : emits (_poll_for_byte expected) [].
Proof.
  intros [p tr]. revert tr.
  induction p as [| r p IH]; intros tr; rewrite _poll_for_byte_eq; cbn [pending trace].
  - eexists; eexists. split; [reflexivity |].
    cbn [trace]. rewrite writes_app. reflexivity.
  - destruct r as [b |].
    + destruct (int_of_byte b =? expected).
      * eexists; eexists. split; [reflexivity |].
        cbn [trace]. rewrite writes_app. reflexivity.
      * destruct (IH (tr ++ [Got b])) as (a & i' & Hrun & Hw).
        exists a, i'. split; [exact Hrun |].
        rewrite Hw. cbn [trace]. rewrite writes_app, !app_nil_r. reflexivity.
    + eexists; eexists. split; [reflexivity |].
      cbn [trace]. rewrite writes_app. reflexivity.
Qed.

Lemma emits_lift_bind {A B : Type} (a : A) (k : A -> M B) (ws : list byte) :
  emits (k a) ws -> emits (bind (lift (Val a)) k) ws.
Proof. intros Hk i. exact (Hk i). Qed.

(** An ACK step writes its byte and nothing else. *)
Lemma emits_ack {B : Type} (v : Z) (b : byte) (k : M B) (ws : list byte) :
  bytes1 v = Val b -> emits k ws ->
  emits (write_raw_bytes v ;; _read_one_byte ;; k) (b :: ws).
Proof.
  intros Hb Hk.
  change (b :: ws) with ([b] ++ [] ++ ws).
  apply emits_bind; [apply emits_write; exact Hb | intros _].
  apply emits_bind; [apply emits_read | intros _; exact Hk].
Qed.

(** A POLL step writes its byte once and nothing else. *)
Lemma emits_poll_step {B : Type} (v expected : Z) (b : byte) (k : M B) (ws : list byte) :
  bytes1 v = Val b -> emits k ws ->
  emits (write_raw_bytes v ;; _poll_for_byte expected ;; k) (b :: ws).
Proof.
  intros Hb Hk.
  change (b :: ws) with ([b] ++ [] ++ ws).
  apply emits_bind; [apply emits_write; exact Hb | intros _].
  apply emits_bind; [apply emits_poll | intros _; exact Hk].
Qed.

(** The start sequence on a payload of four bytes. *)
Lemma emits_start (b0 b1 b2 b3 : byte) :
  emits (_run_start_sequence (map int_of_byte [b0; b1; b2; b3]))
    [x64; x64; x1e; x64; x2c; b0; b1; b2; b3; x00].
Proof.
  unfold _run_start_sequence. cbn [map getitem nth_error].
  apply emits_ack; [reflexivity |].
  apply emits_ack; [reflexivity |].
  apply emits_poll_step; [reflexivity |].
  apply emits_ack; [reflexivity |].
  apply emits_ack; [reflexivity |].
  do 4 (apply emits_lift_bind; apply emits_ack; [apply bytes1_int_of_byte |]).
  change [x00] with (x00 :: []).
  apply emits_poll_step; [reflexivity | apply emits_ret].
Qed.

(** The three steps before the first CAPTURE. *)
Lemma emits_stop_prefix : emits stop_prefix [x64; x2b; x0a].
Proof.
  unfold stop_prefix.
  apply emits_ack; [reflexivity |].
  change [x2b; x0a] with ([x2b] ++ [] ++ [x0a]).
  apply emits_bind; [apply emits_write; reflexivity | intros _].
  apply emits_bind; [apply emits_poll | intros _].
  apply emits_write; reflexivity.
Qed.

(** The four steps after the third CAPTURE. *)
Lemma emits_stop_suffix (v : value) :
  emits (write_raw_bytes 0x4E ;; _read_one_byte ;;
         write_raw_bytes 0x00 ;;
         write_raw_bytes 0x64 ;; _read_one_byte ;;
         write_raw_bytes 0x82 ;; _poll_for_byte 0x12 ;;
         ret v)
    [x4e; x00; x64; x82].
Proof.
  apply emits_ack; [reflexivity |].
  change [x00; x64; x82] with ([x00] ++ [x64; x82]).
  apply emits_bind; [apply emits_write; reflexivity | intros _].
  apply emits_ack; [reflexivity |].
  apply emits_poll_step; [reflexivity | apply emits_ret].
Qed.

End Emission.

(* ===================================================================== *)
(** * The methods against the scripts *)
(* ===================================================================== *)

Section Scripts.

Lemma agree_bind {A B C : Type} (R : B -> C -> Prop)
  (c : M A) (k1 : A -> M B) (k2 : A -> M C) :
  (forall a i, agree R (k1 a i) (k2 a i)) ->
  forall i, agree R (bind c k1 i) (bind c k2 i).
Proof.
  intros Hk i. unfold bind.
  destruct (c i) as [[a | e] i1]; [apply Hk |].
  split; reflexivity.
Qed.

Lemma agree_ret {A B : Type} (R : A -> B -> Prop) (a : A) (b : B) (i : instrument) :
  R a b -> agree R (ret a i) (ret b i).
Proof. intros H. split; [reflexivity | exact H]. Qed.

Ltac same_call := apply agree_bind; intros ? ?.

(** [_run_start_sequence] runs the start script step for step. *)
Lemma start_sequence_refines (b0 b1 b2 b3 : byte) (i : instrument) :
  agree (fun _ captured => captured = Some [])
    (_run_start_sequence (map int_of_byte [b0; b1; b2; b3]) i)
    (run_script (start_script (map int_of_byte [b0; b1; b2; b3])) [] i).
Proof.
  unfold _run_start_sequence, start_script.
  cbn [map nth run_script getitem nth_error].
  do 10 same_call.
  do 4 (change (bind (lift (Val ?v)) ?k ?j) with (k v j); cbv beta;
        same_call; same_call).
  do 2 same_call.
  apply agree_ret. reflexivity.
Qed.

(** [stop_and_query_field] runs the stop-and-query script step for step
    and decodes what the script captured. *)
Lemma stop_and_query_refines (i : instrument) :
  agree reading_of (stop_and_query_field i) (run_script stop_script [] i).
Proof.
  unfold stop_and_query_field, stop_script. cbn [run_script app].
  do 5 same_call.
  do 3 (apply agree_bind; intros [? |] ?; [| apply agree_ret; reflexivity];
        same_call).
  do 7 same_call.
  apply agree_ret. reflexivity.
Qed.

End Scripts.

(* ===================================================================== *)
(** * Stop and query, capture by capture *)
(* ===================================================================== *)

Section Query.

(** Known state in, explicit state out: one call of the source. *)
Ltac run_line :=
  repeat first
    [ rewrite _read_one_byte_eq; cbn [pending trace]
    | rewrite (write_raw_bytes_ok _ _ _ (bytes1_int_of_byte _)); cbn [pending trace] ].

Lemma stop_and_query_field_split (i : instrument) :
  stop_and_query_field i = (stop_prefix ;; query_tail) i.
Proof.
  unfold stop_and_query_field, stop_prefix, query_tail, bind.
  destruct (write_raw_bytes 100 i) as [[[] | e] i1]; [| reflexivity].
  destruct (_read_one_byte i1) as [[r1 | e] i2]; [| reflexivity].
  destruct (write_raw_bytes 43 i2) as [[[] | e] i3]; [| reflexivity].
  destruct (_poll_for_byte 18 i3) as [[r2 | e] i4]; [| reflexivity].
  destruct (write_raw_bytes 10 i4) as [[[] | e] i5]; reflexivity.
Qed.

(** A capture that times out ends the method there and then. *)
Lemma query_tail_timeout (bs : list byte) (rest : list (option byte)) (tr : list event) :
  (List.length bs < 3)%nat -> times_out rest = true ->
  exists rest',
    query_tail (mkInstrument (map Some bs ++ rest) tr) =
    (Val (PyStr "Query Failed"),
     mkInstrument rest' (tr ++ echoes bs ++ [TimedOut])).
Proof.
  intros Hlen Hout.
  destruct bs as [| b1 [| b2 [| b3 bs]]]; [| | | simpl in Hlen; lia];
    (destruct rest as [| [b |] rest]; [| discriminate Hout |]);
    unfold query_tail, bind; cbn [map app]; run_line;
    eexists; unfold ret; cbn [echoes flat_map app];
    repeat rewrite <- app_assoc; reflexivity.
Qed.

(** Three captures in a row: the remaining four steps run and the
    decoded field is returned. *)
Lemma query_tail_reading (b1 b2 b3 : byte) (rest : list (option byte)) (tr : list event) :
  exists i',
    query_tail (mkInstrument (Some b1 :: Some b2 :: Some b3 :: rest) tr) =
    (Val (PyFloat (decode_field (int_of_byte b1) (int_of_byte b2) (int_of_byte b3))), i') /\
    writes (trace i') = writes tr ++ [b1; b2; b3; x4e; x00; x64; x82].
Proof.
  unfold query_tail.
  unfold bind at 1 2 3 4 5 6. run_line.
  match goal with
  | |- context [bind _ _ ?j] =>
      destruct (emits_stop_suffix
                  (PyFloat (decode_field (int_of_byte b1) (int_of_byte b2) (int_of_byte b3))) j)
        as (v & i' & Hrun & Hw)
  end.
  exists i'. split.
  - rewrite Hrun. f_equal. f_equal.
    revert Hrun. unfold bind, ret.
    repeat match goal with
    | |- context [match ?c ?j with _ => _ end] => destruct (c j) as [[? | ?] ?]
    end; intros H; inversion H; reflexivity.
  - rewrite Hw. cbn [trace]. rewrite !writes_app. cbn [writes app].
    rewrite !app_nil_r, <- !app_assoc. reflexivity.
Qed.

(** Whatever the line does, [stop_and_query_field] returns. *)
Lemma stop_and_query_field_returns (i : instrument) :
  exists v i', stop_and_query_field i = (Val v, i').
Proof.
  rewrite stop_and_query_field_split. unfold bind at 1.
  destruct (emits_stop_prefix i) as ([] & [p tr] & Hrun & _). rewrite Hrun.
  assert (Hout : forall bs rest, (List.length bs < 3)%nat -> times_out rest = true ->
            exists v i', query_tail (mkInstrument (map Some bs ++ rest) tr) = (Val v, i')).
  { intros bs rest Hlen Hrest.
    destruct (query_tail_timeout bs rest tr Hlen Hrest) as [rest' H].
    eexists; eexists; exact H. }
  destruct p as [| [b1 |] p].
  { apply (Hout [] []); [simpl; lia | reflexivity]. }
  2:{ apply (Hout [] (None :: p)); [simpl; lia | reflexivity]. }
  destruct p as [| [b2 |] p].
  { apply (Hout [b1] []); [simpl; lia | reflexivity]. }
  2:{ apply (Hout [b1] (None :: p)); [simpl; lia | reflexivity]. }
  destruct p as [| [b3 |] p].
  { apply (Hout [b1; b2] []); [simpl; lia | reflexivity]. }
  2:{ apply (Hout [b1; b2] (None :: p)); [simpl; lia | reflexivity]. }
  destruct (query_tail_reading b1 b2 b3 p tr) as (i' & H & _).
  eexists; eexists; exact H.
Qed.

End Query.

(* ===================================================================== *)
(** * The encoder against its specification *)
(* ===================================================================== *)

(** C1: on the calibration points the encoder does not give the captured
    payloads.  [current_map] returns counts 32 at 0.1 A (low byte 0x20,
    not 0x23), 1296 at 4.0 A ([0x05, 0x10, 0x00, 0x01], not
    [0x05, 0x13, 0x00, 0x01]) and 648 at -2.0 A ([0x02, 0x88, 0x00, 0x00],
    not [0x02, 0x29, 0x00, 0x00]), while the class's own table
    [CURRENT_MAP] holds the captured values 35, 1299 and 553. *)
Theorem current_map_misses_fixtures :
  current_map 0.1%float = Val [0x00; 0x20; 0x00; 0x01] /\
  current_map 4.0%float = Val [0x05; 0x10; 0x00; 0x01] /\
  current_map (-2.0)%float = Val [0x02; 0x88; 0x00; 0x00] /\
  current_map (-0.1)%float = Val [0x00; 0x20; 0x00; 0x00] /\
  lookup (KFloat (-0.1)%float) CURRENT_MAP = Some [0x00; 0x23; 0x00; 0x00] /\
  lookup (KFloat 4.0%float) CURRENT_MAP = Some [0x05; 0x13; 0x00; 0x01] /\
  lookup (KFloat (-2.0)%float) CURRENT_MAP = Some [0x02; 0x29; 0x00; 0x00].
Proof. repeat (split; [vm_compute; reflexivity |]). vm_compute; reflexivity. Qed.

(** C2, as stated, fails at 0.125 A: the product with [SCALE] is about
    40.51, which [int] truncates to 40 where the reference rounds to 41. *)
Lemma encoder_truncates_at_eighth :
  PrimFloat.is_finite 0.125%float = true /\
  current_map 0.125%float = Val [0; 40; 0; 1] /\
  encode_ref 0.125%float = Val [0; 41; 0; 1] /\
  current_map 0.125%float <> encode_ref 0.125%float.
Proof.
  assert (Hc : current_map 0.125%float = Val [0; 40; 0; 1]) by (vm_compute; reflexivity).
  assert (Hr : encode_ref 0.125%float = Val [0; 41; 0; 1]) by (vm_compute; reflexivity).
  split; [vm_compute; reflexivity |].
  split; [exact Hc |]. split; [exact Hr |].
  rewrite Hc, Hr. discriminate.
Qed.

(** C2 (amended): for every [amps] whose truncated counts
    [counts = int(SCALE * abs(amps))] are at least 16, [current_map]
    returns [[counts >> 8, counts & 0xFF, 0x00, sign]] with [sign] 0x01
    when [amps >= 0] and 0x00 otherwise: the hex-string slicing agrees
    with shift and mask. *)
Theorem current_map_shift_mask (amps : float) (counts : Z) :
  int_of_float (PrimFloat.mul SCALE (PrimFloat.abs amps)) = Val counts ->
  16 <= counts ->
  current_map amps =
    Val [Z.shiftr counts 8; Z.land counts 0xFF; 0x00;
         if PrimFloat.leb 0%float amps then 0x01 else 0x00].
Proof.
  intros Hcounts Hn.
  assert (Hnan : Prim2SF amps <> S754_nan).
  { intros Hx. apply abs_nan in Hx.
    rewrite (int_of_scaled_nan _ Hx) in Hcounts. discriminate. }
  rewrite Z.shiftr_div_pow2 by lia.
  change 0xFF with (Z.ones 8). rewrite Z.land_ones by lia.
  change (2 ^ 8) with 256.
  rewrite <- (not_below_zero amps Hnan).
  rewrite (current_map_of_counts amps counts); [| | assumption].
  - destruct (PrimFloat.ltb amps 0%float); reflexivity.
  - destruct (PrimFloat.ltb amps 0%float) eqn:Hlt; [assumption |].
    rewrite <- abs_not_needed; assumption.
Qed.

Lemma current_map_shift_mask_witness :
  int_of_float (PrimFloat.mul SCALE (PrimFloat.abs (-2.0)%float)) = Val 648 /\
  16 <= 648 /\
  current_map (-2.0)%float =
    Val [Z.shiftr 648 8; Z.land 648 0xFF; 0x00;
         if PrimFloat.leb 0%float (-2.0)%float then 0x01 else 0x00].
Proof.
  split; [vm_compute; reflexivity |]. split; [lia |].
  apply (current_map_shift_mask (-2.0)%float 648); [vm_compute; reflexivity | lia].
Defined.

(** C3: the encoder is not total.  At 0.0 A, and at the finite 0.04 A,
    the counts are below 16, [hex] prints a single digit and
    [int(mapped[-2:], 16)] raises [ValueError]: no payload comes back. *)
Theorem current_map_raises_near_zero :
  PrimFloat.is_finite 0.0%float = true /\
  current_map 0.0%float = Raise ValueError /\
  PrimFloat.is_finite 0.04%float = true /\
  current_map 0.04%float = Raise ValueError.
Proof. repeat (split; [vm_compute; reflexivity |]). vm_compute; reflexivity. Qed.

(** A finite input can also be too large: the product with [SCALE]
    overflows to infinity and [int] raises [OverflowError]. *)
Remark current_map_overflows :
  PrimFloat.is_finite 1e308%float = true /\
  current_map 1e308%float = Raise OverflowError.
Proof. split; vm_compute; reflexivity. Qed.

(** Off NaN the flag written by [current_map] is the one the
    specification asks for, whenever a payload is returned at all. *)
Lemma current_map_sign_law (amps : float) (payload : list Z) :
  current_map amps = Val payload ->
  decode_sign payload = PrimFloat.leb 0%float amps.
Proof.
  intros Hrun. rewrite (current_map_sign amps payload Hrun).
  apply not_below_zero. intros Hnan.
  assert (Hlt : PrimFloat.ltb amps 0%float = false).
  { rewrite FloatAxioms.ltb_spec, Hnan. reflexivity. }
  unfold current_map in Hrun. rewrite Hlt in Hrun.
  rewrite (int_of_scaled_nan amps Hnan) in Hrun. discriminate.
Qed.

(** C8: inside [-4.0, 4.0] the sign byte is missing near zero.  At 0.0 A
    and at -0.04 A [current_map] raises [ValueError], so there is no
    payload whose last byte could be read back. *)
Theorem no_sign_byte_near_zero :
  (PrimFloat.leb (-4.0)%float 0.0%float && PrimFloat.leb 0.0%float 4.0%float = true) /\
  (forall payload, current_map 0.0%float <> Val payload) /\
  (PrimFloat.leb (-4.0)%float (-0.04)%float && PrimFloat.leb (-0.04)%float 4.0%float = true) /\
  (forall payload, current_map (-0.04)%float <> Val payload).
Proof.
  assert (H0 : current_map 0.0%float = Raise ValueError) by (vm_compute; reflexivity).
  assert (H1 : current_map (-0.04)%float = Raise ValueError) by (vm_compute; reflexivity).
  split; [vm_compute; reflexivity |].
  split; [intros payload; rewrite H0; discriminate |].
  split; [vm_compute; reflexivity |].
  intros payload; rewrite H1; discriminate.
Qed.

(* ===================================================================== *)
(** * The handshakes against their specification *)
(* ===================================================================== *)

(** C4: on a payload of four bytes the start sequence returns, runs the
    ten steps of the start script in order, each in its ACK or POLL mode,
    and writes exactly 0x64, 0x64, 0x1E, 0x64, 0x2C, payload[0],
    payload[1], payload[2], payload[3], 0x00, in that order. *)
Theorem start_sequence_exact (b0 b1 b2 b3 : byte) (i : instrument) :
  let payload := map int_of_byte [b0; b1; b2; b3] in
  exists i',
    _run_start_sequence payload i = (Val tt, i') /\
    run_script (start_script payload) [] i = (Val (Some []), i') /\
    writes (trace i') =
      writes (trace i) ++ [x64; x64; x1e; x64; x2c; b0; b1; b2; b3; x00].
Proof.
  intros payload.
  destruct (emits_start b0 b1 b2 b3 i) as ([] & i' & Hrun & Hw).
  exists i'. split; [exact Hrun |]. split; [| exact Hw].
  pose proof (start_sequence_refines b0 b1 b2 b3 i) as [Hstate Hval].
  fold payload in Hstate, Hval. unfold payload in Hrun.
  fold payload in Hrun. rewrite Hrun in Hstate, Hval. cbn [fst snd] in *.
  destruct (run_script (start_script payload) [] i) as [[captured | e] i2];
    cbn [fst snd] in *; [| contradiction].
  subst. reflexivity.
Qed.

(** A payload entry outside [range(0, 256)] stops the start sequence at
    that entry, after the five command bytes. *)
Remark start_sequence_refuses_wide_entry :
  current_map 203.0%float = Val [257; 0; 0; 1] /\
  fst (_run_start_sequence [257; 0; 0; 1] (mock [])) = Raise ValueError /\
  writes (trace (snd (_run_start_sequence [257; 0; 0; 1] (mock [])))) =
    [x64; x64; x1e; x64; x2c].
Proof. repeat (split; [vm_compute; reflexivity |]). vm_compute; reflexivity. Qed.

(** C5: if one of the three CAPTURE reads times out, after [bs] was
    captured and echoed, [stop_and_query_field] returns "Query Failed",
    which is no decoded field, and the exchange ends with that timeout:
    the bytes written are 0x64, 0x2B, 0x0A and the echoes of [bs], and
    nothing of the remaining script. *)
Theorem capture_timeout_aborts
  (i : instrument) (bs : list byte) (rest : list (option byte)) :
  pending (snd (stop_prefix i)) = map Some bs ++ rest ->
  (List.length bs < 3)%nat ->
  times_out rest = true ->
  exists i',
    stop_and_query_field i = (Val (PyStr "Query Failed"), i') /\
    trace i' = trace (snd (stop_prefix i)) ++ echoes bs ++ [TimedOut] /\
    writes (trace i') = writes (trace i) ++ [x64; x2b; x0a] ++ bs /\
    (forall byte1 byte2 byte3,
       PyStr "Query Failed" <> PyFloat (decode_field byte1 byte2 byte3)).
Proof.
  intros Hpending Hlen Hout.
  rewrite stop_and_query_field_split. unfold bind at 1.
  destruct (emits_stop_prefix i) as ([] & [p tr] & Hrun & Hw).
  rewrite Hrun in *. cbn [snd pending trace] in *. subst p.
  destruct (query_tail_timeout bs rest tr Hlen Hout) as [rest' Htail].
  eexists. split; [exact Htail |]. cbn [trace].
  split; [reflexivity |]. split; [| discriminate].
  rewrite !writes_app, writes_echoes, Hw. cbn [writes].
  rewrite app_nil_r, <- app_assoc. reflexivity.
Qed.

Lemma capture_timeout_aborts_witness :
  let i := mock [x00; x12; x00; xde] in
  pending (snd (stop_prefix i)) = map Some [x00; xde] ++ [] /\
  exists i',
    stop_and_query_field i = (Val (PyStr "Query Failed"), i') /\
    trace i' = trace (snd (stop_prefix i)) ++ echoes [x00; xde] ++ [TimedOut] /\
    writes (trace i') = writes (trace i) ++ [x64; x2b; x0a] ++ [x00; xde] /\
    (forall byte1 byte2 byte3,
       PyStr "Query Failed" <> PyFloat (decode_field byte1 byte2 byte3)).
Proof.
  intros i. split; [reflexivity |].
  apply (capture_timeout_aborts i [x00; xde] []);
    [reflexivity | simpl; lia | reflexivity].
Defined.

(** C6: when the three CAPTURE reads deliver [byte1], [byte2], [byte3],
    the field returned is [((byte1 << 8) | byte2) / 10.0], that is
    [(256 * byte1 + byte2) / 10.0], negated exactly when [byte3] is 0x01;
    the bytes 0x00, 0xDE, 0x00 decode to 22.2 mT and 0x00, 0xDE, 0x01 to
    -22.2 mT. *)
Theorem field_decoder_law
  (i : instrument) (byte1 byte2 byte3 : byte) (rest : list (option byte)) :
  pending (snd (stop_prefix i)) = Some byte1 :: Some byte2 :: Some byte3 :: rest ->
  let magnitude := 256 * int_of_byte byte1 + int_of_byte byte2 in
  let field := PrimFloat.div (float_of_int magnitude) 10.0%float in
  fst (stop_and_query_field i) =
    Val (PyFloat (if Byte.eqb byte3 x01 then PrimFloat.opp field else field)) /\
  decode_field (int_of_byte byte1) (int_of_byte byte2) (int_of_byte byte3) =
    field_ref (int_of_byte byte1) (int_of_byte byte2) (int_of_byte byte3) /\
  decode_field 0x00 0xDE 0x00 = 22.2%float /\
  decode_field 0x00 0xDE 0x01 = (-22.2)%float.
Proof.
  intros Hpending magnitude field.
  split; [| split; [reflexivity | split; vm_compute; reflexivity]].
  rewrite stop_and_query_field_split. unfold bind at 1.
  destruct (emits_stop_prefix i) as ([] & [p tr] & Hrun & _).
  rewrite Hrun in *. cbn [snd pending] in Hpending. subst p.
  destruct (query_tail_reading byte1 byte2 byte3 rest tr) as (i' & Htail & _).
  rewrite Htail. cbn [fst]. unfold decode_field.
  rewrite lor_shiftl_8 by apply int_of_byte_range.
  fold magnitude. fold field.
  replace (int_of_byte byte3 =? 1) with (Byte.eqb byte3 x01); [reflexivity |].
  destruct byte3; reflexivity.
Qed.

Lemma field_decoder_law_witness :
  let i := mock [x00; x12; x00; xde; x01] in
  pending (snd (stop_prefix i)) = Some x00 :: Some xde :: Some x01 :: [] /\
  fst (stop_and_query_field i) = Val (PyFloat (-22.2)%float).
Proof.
  intros i. split; [reflexivity |].
  exact (proj1 (field_decoder_law i x00 xde x01 [] eq_refl)).
Defined.

(** C7, as stated, fails on the scripted end-to-end run [pulse(1.0, 0.0)]:
    [stop_and_query_field] produces the reading 22.2 and [pulse] returns
    [None]. *)
Lemma pulse_returns_none :
  let after_hold := held 0.0%float (snd (set_current 1.0%float pulse_line)) in
  fst (stop_and_query_field after_hold) = Val (PyFloat 22.2%float) /\
  fst (pulse rejects_negative 1.0%float 0.0%float pulse_line) = Val PyNone /\
  fst (pulse rejects_negative 1.0%float 0.0%float pulse_line) <>
    fst (stop_and_query_field after_hold).
Proof.
  intros after_hold.
  assert (Hq : fst (stop_and_query_field after_hold) = Val (PyFloat 22.2%float))
    by (vm_compute; reflexivity).
  assert (Hp : fst (pulse rejects_negative 1.0%float 0.0%float pulse_line) = Val PyNone)
    by (vm_compute; reflexivity).
  split; [exact Hq |]. split; [exact Hp |].
  rewrite Hp, Hq. discriminate.
Qed.

(** C7 (amended): [pulse(amps, duration)] is [set_current(amps)], a hold
    of [duration], then [stop_and_query_field()], in that order and with
    nothing else exchanged on the line; an exception of [set_current] or
    of [time.sleep] ends it there.  When both return, [pulse] returns
    [None]: the reading of [stop_and_query_field], which always comes
    back, is not handed on. *)
Theorem pulse_is_composition
  (sleep_rejects : float -> option exn) (amps duration : float)
  (i : instrument) :
  pulse sleep_rejects amps duration i =
    match set_current amps i with
    | (Raise e, i1) => (Raise e, i1)
    | (Val _, i1) =>
        match sleep_rejects duration with
        | Some e => (Raise e, i1)
        | None => (Val PyNone, snd (stop_and_query_field (held duration i1)))
        end
    end /\
  forall i1, exists field, fst (stop_and_query_field (held duration i1)) = Val field.
Proof.
  split.
  - unfold pulse, bind, time_sleep.
    destruct (set_current amps i) as [[[] | e] i1]; [| reflexivity].
    destruct (sleep_rejects duration) as [e |]; [reflexivity |].
    unfold log. fold (held duration i1).
    destruct (stop_and_query_field_returns (held duration i1)) as (v & i3 & Hq).
    rewrite Hq. reflexivity.
  - intros i1.
    destruct (stop_and_query_field_returns (held duration i1)) as (v & i3 & Hq).
    exists v. rewrite Hq. reflexivity.
Qed.

Lemma pulse_is_composition_witness :
  let i1 := snd (set_current 1.0%float pulse_line) in
  pulse rejects_negative 1.0%float 0.0%float pulse_line =
    (Val PyNone, snd (stop_and_query_field (held 0.0%float i1))).
Proof.
  intros i1.
  exact (proj1 (pulse_is_composition rejects_negative 1.0%float 0.0%float pulse_line)).
Defined.

(** The reads of a poll: bytes other than the expected one, each
    discarded, then the expected byte or a timeout.  An expected byte at
    the head of the line ends the poll on that one read. *)
Lemma poll_reads (expected : Z) :
  forall (script : list (option byte)) (tr : list event),
  exists junk last r rest',
    _poll_for_byte expected (mkInstrument script tr) =
      (Val r, mkInstrument rest' (tr ++ map Got junk ++ [last])) /\
    Forall (fun j => int_of_byte j <> expected) junk /\
    ((exists m, last = Got m /\ int_of_byte m = expected /\ r = Some expected) \/
     (last = TimedOut /\ r = None)) /\
    (forall m rest, script = Some m :: rest -> int_of_byte m = expected ->
       junk = [] /\ last = Got m /\ rest' = rest).
Proof.
  induction script as [| [b |] script IH]; intros tr;
    rewrite _poll_for_byte_eq; cbn [pending trace].
  - exists [], TimedOut, None, [].
    split; [reflexivity |]. split; [constructor |].
    split; [right; split; reflexivity | discriminate].
  - destruct (Z.eqb_spec (int_of_byte b) expected) as [Heq | Hne].
    + exists [], (Got b), (Some expected), script. rewrite Heq.
      split; [reflexivity |]. split; [constructor |].
      split; [left; exists b; auto |].
      intros m rest Hscript _. inversion Hscript. auto.
    + destruct (IH (tr ++ [Got b]))
        as (junk & last & r & rest' & Hrun & Hjunk & Hlast & _).
      exists (b :: junk), last, r, rest'. rewrite Hrun.
      split; [cbn [map app]; rewrite <- app_assoc; reflexivity |].
      split; [constructor; assumption |].
      split; [exact Hlast |].
      intros m rest Hscript Hm. inversion Hscript; subst. contradiction.
  - exists [], TimedOut, None, script.
    split; [reflexivity |]. split; [constructor |].
    split; [right; split; reflexivity | discriminate].
Qed.

(** C9: a POLL step writes its command byte exactly once, then reads:
    bytes other than the expected one are discarded, and the step ends
    at the first expected byte or at the first timeout.  It returns in
    both cases, so the sequence goes on; when the first byte read is the
    expected one, that read is the only one. *)
Theorem poll_step_behaviour (b : byte) (expected : Z) (i : instrument) :
  exists junk last r i',
    (write_raw_bytes (int_of_byte b) ;; _poll_for_byte expected) i = (Val r, i') /\
    trace i' = trace i ++ Wrote b :: map Got junk ++ [last] /\
    writes (trace i') = writes (trace i) ++ [b] /\
    Forall (fun j => int_of_byte j <> expected) junk /\
    ((exists m, last = Got m /\ int_of_byte m = expected /\ r = Some expected) \/
     (last = TimedOut /\ r = None)) /\
    (forall m rest, pending i = Some m :: rest -> int_of_byte m = expected ->
       trace i' = trace i ++ [Wrote b; Got m] /\ pending i' = rest).
Proof.
  unfold bind. rewrite (write_raw_bytes_ok _ _ _ (bytes1_int_of_byte b)).
  destruct (poll_reads expected (pending i) (trace i ++ [Wrote b]))
    as (junk & last & r & rest' & Hrun & Hjunk & Hlast & Hfirst).
  exists junk, last, r. eexists. split; [exact Hrun |]. cbn [trace pending].
  split; [rewrite <- app_assoc; reflexivity |].
  split.
  - rewrite !writes_app, writes_Got. cbn [writes app].
    destruct Hlast as [(m & -> & _) | [-> _]]; cbn [writes]; rewrite app_nil_r; reflexivity.
  - split; [exact Hjunk |]. split; [exact Hlast |].
    intros m rest Hpending Hm.
    destruct (Hfirst m rest Hpending Hm) as (-> & -> & ->).
    split; [rewrite <- app_assoc; reflexivity | reflexivity].
Qed.

Lemma poll_step_behaviour_witness :
  let i := mock [x12; x07] in
  pending i = Some x12 :: [Some x07] /\ int_of_byte x12 = 0x12 /\
  exists junk last r i',
    (write_raw_bytes (int_of_byte x1e) ;; _poll_for_byte 0x12) i = (Val r, i') /\
    trace i' = trace i ++ Wrote x1e :: map Got junk ++ [last] /\
    writes (trace i') = writes (trace i) ++ [x1e] /\
    Forall (fun j => int_of_byte j <> 0x12) junk /\
    ((exists m, last = Got m /\ int_of_byte m = 0x12 /\ r = Some 0x12) \/
     (last = TimedOut /\ r = None)) /\
    (forall m rest, pending i = Some m :: rest -> int_of_byte m = 0x12 ->
       trace i' = trace i ++ [Wrote x1e; Got m] /\ pending i' = rest).
Proof.
  intros i. split; [reflexivity |]. split; [reflexivity |].
  exact (poll_step_behaviour x1e 0x12 i).
Defined.

(* ===================================================================== *)
(** * Construction *)
(* ===================================================================== *)

(** C10: constructing the controller always fails.  Whatever the resource
    name, [__init__] returns no object; once [pyvisa.ResourceManager()]
    has returned, the failure is the [AttributeError] for the undefined
    name [coonect], raised before [connect] (which exists) is ever
    called. *)
Theorem constructor_always_fails (lib : visa) (name : string) :
  (forall self, __init__ lib name <> Val self) /\
  has_attribute "coonect" = false /\
  has_attribute "connect" = true /\
  (ResourceManager lib = Val tt ->
   __init__ lib name = Raise (AttributeError "coonect")).
Proof.
  unfold __init__, call_method.
  change (has_attribute "coonect") with false. cbn [negb].
  repeat split.
  - intros self. destruct (ResourceManager lib); discriminate.
  - intros Hrm. rewrite Hrm. reflexivity.
Qed.

Lemma constructor_always_fails_witness :
  let lib := mkVisa (Val tt) (fun _ => Val (mock [])) in
  ResourceManager lib = Val tt /\
  __init__ lib "ASRL5::INSTR" = Raise (AttributeError "coonect").
Proof.
  intros lib. split; [reflexivity |].
  exact (proj2 (proj2 (proj2 (constructor_always_fails lib "ASRL5::INSTR"))) eq_refl).
Defined.

(* ===================================================================== *)
(** * More on the encoder *)
(* ===================================================================== *)

Section EncoderDomain.

Lemma binary_round_aux_sign (prec emax : Z) (sx : bool) (mx ex : Z) (lx : location) :
  match binary_round_aux prec emax sx mx ex lx with
  | S754_zero s | S754_infinity s | S754_finite s _ _ => s = sx
  | S754_nan => True
  end.
Proof.
  unfold binary_round_aux.
  destruct (shr_fexp prec emax mx ex lx) as [mrs' e'].
  destruct (shr_fexp prec emax _ e' loc_Exact) as [mrs'' e''].
  destruct (shr_m mrs''); [reflexivity | | exact I].
  destruct (Z.leb e'' (emax - prec)); reflexivity.
Qed.

Lemma Prim2SF_SCALE : Prim2SF SCALE = S754_finite false 5701672605164570 (-44).
Proof. vm_compute. reflexivity. Qed.

(** The counts of a magnitude that is not negative are not negative. *)
Lemma scaled_counts_nonneg (a : float) (n : Z) :
  not_negative (Prim2SF a) ->
  int_of_float (PrimFloat.mul SCALE a) = Val n -> 0 <= n.
Proof.
  intros Ha. unfold int_of_float.
  rewrite FloatAxioms.mul_spec, Prim2SF_SCALE. unfold SF64mul.
  destruct (Prim2SF a) as [s | s | | s m e]; cbn [SFmul xorb].
  - intros H; inversion H; lia.
  - discriminate.
  - discriminate.
  - destruct s; [contradiction |].
    pose proof (binary_round_aux_sign prec emax false
                  (Z.pos (5701672605164570 * m)) (-44 + e) loc_Exact) as Hsign.
    destruct (binary_round_aux prec emax false _ _ loc_Exact) as [s' | s' | | s' m' e'];
      try discriminate.
    + intros H; inversion H; lia.
    + subst s'. intros H; inversion H. apply Z.shiftl_nonneg. lia.
Qed.

Lemma abs_not_negative (x : float) : not_negative (Prim2SF (PrimFloat.abs x)).
Proof.
  rewrite FloatAxioms.abs_spec.
  destruct (Prim2SF x) as [s | s | | s m e]; exact I.
Qed.

Lemma abs_not_below_zero (x : float) :
  PrimFloat.ltb (PrimFloat.abs x) 0%float = false.
Proof.
  rewrite FloatAxioms.ltb_spec, FloatAxioms.abs_spec, Prim2SF_zero.
  destruct (Prim2SF x) as [s | s | | s m e]; reflexivity.
Qed.

Lemma abs_abs (x : float) : PrimFloat.abs (PrimFloat.abs x) = PrimFloat.abs x.
Proof.
  apply Prim2SF_inj. rewrite !FloatAxioms.abs_spec.
  destruct (Prim2SF x) as [s | s | | s m e]; reflexivity.
Qed.

(** The counts [current_map] works with, whichever branch it took. *)
Lemma counts_by_abs (amps : float) :
  int_of_float
    (PrimFloat.mul SCALE
       (if PrimFloat.ltb amps 0%float then PrimFloat.abs amps else amps)) =
  int_of_float (PrimFloat.mul SCALE (PrimFloat.abs amps)).
Proof.
  destruct (PrimFloat.ltb amps 0%float) eqn:Hlt; [reflexivity |].
  symmetry. apply abs_not_needed. exact Hlt.
Qed.

(** The sign flag in the words of the specification, given counts. *)
Lemma sign_flag_by_leb (amps : float) (counts : Z) :
  int_of_float (PrimFloat.mul SCALE (PrimFloat.abs amps)) = Val counts ->
  (if PrimFloat.ltb amps 0%float then 0 else 1) =
  (if PrimFloat.leb 0%float amps then 1 else 0).
Proof.
  intros Hcounts.
  assert (Hnan : Prim2SF amps <> S754_nan).
  { intros Hx. apply abs_nan in Hx.
    rewrite (int_of_scaled_nan _ Hx) in Hcounts. discriminate. }
  rewrite <- (not_below_zero amps Hnan).
  destruct (PrimFloat.ltb amps 0%float); reflexivity.
Qed.

(** [current_map] read as a function of the counts of [abs(amps)]. *)
Lemma current_map_by_counts (amps : float) (counts : Z) :
  int_of_float (PrimFloat.mul SCALE (PrimFloat.abs amps)) = Val counts ->
  (0 <= counts < 16 -> current_map amps = Raise ValueError) /\
  (16 <= counts ->
   current_map amps =
     Val [counts / 256; counts mod 256; 0;
          if PrimFloat.leb 0%float amps then 1 else 0]).
Proof.
  intros Hcounts. split; intros Hn.
  - apply (current_map_small_counts amps counts); [| exact Hn].
    rewrite counts_by_abs. exact Hcounts.
  - rewrite <- (sign_flag_by_leb amps counts Hcounts).
    apply current_map_of_counts; [| exact Hn].
    rewrite counts_by_abs. exact Hcounts.
Qed.

(** When [current_map] does not get its counts, it raises what [int]
    raised. *)
Lemma current_map_no_counts (amps : float) (e : exn) :
  int_of_float (PrimFloat.mul SCALE (PrimFloat.abs amps)) = Raise e ->
  current_map amps = Raise e.
Proof.
  intros Hcounts. rewrite <- counts_by_abs in Hcounts.
  unfold current_map.
  destruct (PrimFloat.ltb amps 0%float); rewrite Hcounts; reflexivity.
Qed.

End EncoderDomain.

(** X1: [current_map] returns a payload exactly for the inputs whose
    truncated counts [int(SCALE * abs(amps))] exist and are at least 16. *)
Theorem current_map_domain (amps : float) :
  (exists payload, current_map amps = Val payload) <->
  (exists counts,
     int_of_float (PrimFloat.mul SCALE (PrimFloat.abs amps)) = Val counts /\
     16 <= counts).
Proof.
  split.
  - intros [payload Hrun].
    destruct (int_of_float (PrimFloat.mul SCALE (PrimFloat.abs amps)))
      as [counts | e] eqn:Hcounts.
    + exists counts. split; [reflexivity |].
      pose proof (scaled_counts_nonneg _ _ (abs_not_negative amps) Hcounts) as Hpos.
      destruct (Z.lt_ge_cases counts 16) as [Hlt | Hge]; [| exact Hge].
      rewrite (proj1 (current_map_by_counts amps counts Hcounts)) in Hrun by lia.
      discriminate.
    + rewrite (current_map_no_counts amps e Hcounts) in Hrun. discriminate.
  - intros (counts & Hcounts & Hge).
    eexists. apply (proj2 (current_map_by_counts amps counts Hcounts) Hge).
Qed.

(** X2: the only exceptions [current_map] raises are [ValueError] and
    [OverflowError]. *)
Theorem current_map_exceptions (amps : float) (e : exn) :
  current_map amps = Raise e -> e = ValueError \/ e = OverflowError.
Proof.
  intros Hrun.
  destruct (int_of_float (PrimFloat.mul SCALE (PrimFloat.abs amps)))
    as [counts | e'] eqn:Hcounts.
  - pose proof (scaled_counts_nonneg _ _ (abs_not_negative amps) Hcounts) as Hpos.
    destruct (Z.lt_ge_cases counts 16) as [Hlt | Hge].
    + rewrite (proj1 (current_map_by_counts amps counts Hcounts)) in Hrun by lia.
      inversion Hrun. left. reflexivity.
    + rewrite (proj2 (current_map_by_counts amps counts Hcounts) Hge) in Hrun.
      discriminate.
  - rewrite (current_map_no_counts amps e' Hcounts) in Hrun.
    inversion Hrun; subst e'.
    unfold int_of_float in Hcounts.
    destruct (Prim2SF _) as [s | s | | s m ex]; inversion Hcounts; auto.
Qed.

Lemma current_map_exceptions_witness :
  current_map 1e308%float = Raise OverflowError /\
  (OverflowError = ValueError \/ OverflowError = OverflowError).
Proof.
  split; [vm_compute; reflexivity |].
  apply (current_map_exceptions 1e308%float OverflowError). vm_compute. reflexivity.
Defined.

(** X3: every payload [current_map] returns has the form
    [[high, low, 0x00, sign]] with [0 <= low < 256], [0 <= high], [sign]
    0x01 when [amps >= 0] and 0x00 otherwise, and [256 * high + low] is
    the truncated counts [int(SCALE * abs(amps))], never below 16. *)
Theorem current_map_payload_shape (amps : float) (payload : list Z) :
  current_map amps = Val payload ->
  exists high low,
    payload = [high; low; 0x00; if PrimFloat.leb 0%float amps then 0x01 else 0x00] /\
    0 <= high /\ 0 <= low < 256 /\ 16 <= 256 * high + low /\
    int_of_float (PrimFloat.mul SCALE (PrimFloat.abs amps)) = Val (256 * high + low).
Proof.
  intros Hrun.
  destruct (int_of_float (PrimFloat.mul SCALE (PrimFloat.abs amps)))
    as [counts | e] eqn:Hcounts.
  2:{ rewrite (current_map_no_counts amps e Hcounts) in Hrun. discriminate. }
  pose proof (scaled_counts_nonneg _ _ (abs_not_negative amps) Hcounts) as Hpos.
  destruct (Z.lt_ge_cases counts 16) as [Hlt | Hge].
  { rewrite (proj1 (current_map_by_counts amps counts Hcounts)) in Hrun by lia.
    discriminate. }
  rewrite (proj2 (current_map_by_counts amps counts Hcounts) Hge) in Hrun.
  inversion Hrun; subst payload.
  exists (counts / 256), (counts mod 256).
  pose proof (Z.div_mod counts 256 ltac:(lia)) as Hdm.
  pose proof (Z.mod_pos_bound counts 256 ltac:(lia)) as Hmod.
  assert (0 <= counts / 256) by (apply Z.div_pos; lia).
  repeat split; try lia.
  f_equal. lia.
Qed.

Lemma current_map_payload_shape_witness :
  current_map 4.0%float = Val [5; 16; 0; 1] /\
  exists high low,
    [5; 16; 0; 1] =
      [high; low; 0x00; if PrimFloat.leb 0%float 4.0%float then 0x01 else 0x00] /\
    0 <= high /\ 0 <= low < 256 /\ 16 <= 256 * high + low /\
    int_of_float (PrimFloat.mul SCALE (PrimFloat.abs 4.0%float)) = Val (256 * high + low).
Proof.
  split; [vm_compute; reflexivity |].
  apply (current_map_payload_shape 4.0%float [5; 16; 0; 1]). vm_compute. reflexivity.
Defined.

(** X4: the magnitude bytes depend on [abs(amps)] only.  For an input
    below zero, [current_map(amps)] and [current_map(abs(amps))] fail
    alike or return payloads that differ in the sign byte alone, 0x00
    against 0x01. *)
Theorem current_map_mirror (amps : float) :
  PrimFloat.ltb amps 0%float = true ->
  match current_map amps, current_map (PrimFloat.abs amps) with
  | Val [h; l; r; s], Val [h'; l'; r'; s'] =>
      h = h' /\ l = l' /\ r = r' /\ s = 0x00 /\ s' = 0x01
  | Raise e, Raise e' => e = e'
  | _, _ => False
  end.
Proof.
  intros Hlt.
  assert (Hsame : int_of_float (PrimFloat.mul SCALE (PrimFloat.abs (PrimFloat.abs amps))) =
                  int_of_float (PrimFloat.mul SCALE (PrimFloat.abs amps)))
    by (rewrite abs_abs; reflexivity).
  destruct (int_of_float (PrimFloat.mul SCALE (PrimFloat.abs amps)))
    as [counts | e] eqn:Hcounts.
  - pose proof (scaled_counts_nonneg _ _ (abs_not_negative amps) Hcounts) as Hpos.
    destruct (Z.lt_ge_cases counts 16) as [Hsmall | Hge].
    + rewrite (proj1 (current_map_by_counts amps counts Hcounts)) by lia.
      rewrite (proj1 (current_map_by_counts (PrimFloat.abs amps) counts Hsame)) by lia.
      reflexivity.
    + pose proof (current_map_of_counts amps counts) as Hneg.
      rewrite counts_by_abs, Hlt in Hneg. rewrite (Hneg Hcounts Hge).
      pose proof (current_map_of_counts (PrimFloat.abs amps) counts) as Hposv.
      rewrite counts_by_abs, abs_not_below_zero in Hposv.
      rewrite (Hposv Hsame Hge). repeat split.
  - rewrite (current_map_no_counts amps e Hcounts).
    rewrite (current_map_no_counts (PrimFloat.abs amps) e Hsame). reflexivity.
Qed.

Lemma current_map_mirror_witness :
  PrimFloat.ltb (-2.0)%float 0%float = true /\
  match current_map (-2.0)%float, current_map (PrimFloat.abs (-2.0)%float) with
  | Val [h; l; r; s], Val [h'; l'; r'; s'] =>
      h = h' /\ l = l' /\ r = r' /\ s = 0x00 /\ s' = 0x01
  | Raise e, Raise e' => e = e'
  | _, _ => False
  end.
Proof.
  split; [vm_compute; reflexivity |].
  exact (current_map_mirror (-2.0)%float eq_refl).
Defined.

(** X5: of the eight numeric keys of [CURRENT_MAP], [current_map]
    reproduces the stored payload for -3.9 and for no other. *)
Theorem current_map_against_table (k : float) (payload : list Z) :
  In (KFloat k, payload) CURRENT_MAP ->
  (current_map k = Val payload <-> k = (-3.9)%float).
Proof.
  intros Hin. cbn [CURRENT_MAP In] in Hin.
  assert (Hne : forall x : float,
            PrimFloat.eqb x (-3.9)%float = false -> x <> (-3.9)%float).
  { intros x Hx ->. vm_compute in Hx. discriminate. }
  repeat (destruct Hin as [Hin | Hin];
          [ inversion Hin; subst; clear Hin;
            split; intros H;
            [ try reflexivity; vm_compute in H; discriminate
            | try (vm_compute; reflexivity);
              exfalso; revert H; apply Hne; vm_compute; reflexivity ]
          | ]).
  destruct Hin as [Hin | []]. discriminate Hin.
Qed.

Lemma current_map_against_table_witness :
  In (KFloat (-3.9)%float, [0x04; 0xf0; 0x00; 0x00]) CURRENT_MAP /\
  current_map (-3.9)%float = Val [0x04; 0xf0; 0x00; 0x00].
Proof.
  assert (Hin : In (KFloat (-3.9)%float, [0x04; 0xf0; 0x00; 0x00]) CURRENT_MAP)
    by (cbn; tauto).
  split; [exact Hin |].
  apply (proj2 (current_map_against_table (-3.9)%float _ Hin)). reflexivity.
Defined.

(* ===================================================================== *)
(** * More on the start sequence and [set_current] *)
(* ===================================================================== *)

Section Refusals.

Lemma raises_bind_left {A B : Type} (c : M A) (k : A -> M B) (e : exn) (ws : list byte) :
  raises_after c e ws -> raises_after (bind c k) e ws.
Proof.
  intros Hc i. destruct (Hc i) as (i' & Hrun & Hw).
  exists i'. unfold bind. rewrite Hrun. split; [reflexivity | exact Hw].
Qed.

Lemma raises_bind_right {A B : Type} (c : M A) (k : A -> M B) (e : exn)
  (ws1 ws2 : list byte) :
  emits c ws1 -> (forall a, raises_after (k a) e ws2) ->
  raises_after (bind c k) e (ws1 ++ ws2).
Proof.
  intros Hc Hk i.
  destruct (Hc i) as (a & i1 & Hrun & Hw).
  destruct (Hk a i1) as (i2 & Hrun2 & Hw2).
  exists i2. unfold bind. rewrite Hrun, Hrun2. split; [reflexivity |].
  rewrite Hw2, Hw, app_assoc. reflexivity.
Qed.

Lemma raises_lift {A : Type} (e : exn) : raises_after (lift (@Raise A e)) e [].
Proof.
  intros i. exists i. split; [reflexivity | symmetry; apply app_nil_r].
Qed.

Lemma raises_write (v : Z) :
  v < 0 \/ 256 <= v -> raises_after (write_raw_bytes v) ValueError [].
Proof.
  intros Hv i. exists i. split.
  - apply write_raw_bytes_refused. exact Hv.
  - symmetry. apply app_nil_r.
Qed.

(** A step that fails after an ACK step. *)
Lemma raises_after_ack {B : Type} (v : Z) (b : byte) (k : M B) (e : exn) (ws : list byte) :
  bytes1 v = Val b -> raises_after k e ws ->
  raises_after (write_raw_bytes v ;; _read_one_byte ;; k) e (b :: ws).
Proof.
  intros Hb Hk.
  change (b :: ws) with ([b] ++ [] ++ ws).
  apply raises_bind_right; [apply emits_write; exact Hb | intros _].
  apply raises_bind_right; [apply emits_read | intros _; exact Hk].
Qed.

Lemma raises_after_poll_step {B : Type} (v expected : Z) (b : byte) (k : M B)
  (e : exn) (ws : list byte) :
  bytes1 v = Val b -> raises_after k e ws ->
  raises_after (write_raw_bytes v ;; _poll_for_byte expected ;; k) e (b :: ws).
Proof.
  intros Hb Hk.
  change (b :: ws) with ([b] ++ [] ++ ws).
  apply raises_bind_right; [apply emits_write; exact Hb | intros _].
  apply raises_bind_right; [apply emits_poll | intros _; exact Hk].
Qed.

(** The five command steps that open the start sequence. *)
Lemma raises_after_start_commands {B : Type} (k : M B) (e : exn) (ws : list byte) :
  raises_after k e ws ->
  raises_after
    (write_raw_bytes 0x64 ;; _read_one_byte ;;
     write_raw_bytes 0x64 ;; _read_one_byte ;;
     write_raw_bytes 0x1E ;; _poll_for_byte 0x12 ;;
     write_raw_bytes 0x64 ;; _read_one_byte ;;
     write_raw_bytes 0x2C ;; _read_one_byte ;;
     k)
    e ([x64; x64; x1e; x64; x2c] ++ ws).
Proof.
  intros Hk. cbn [app].
  apply raises_after_ack; [reflexivity |].
  apply raises_after_ack; [reflexivity |].
  apply raises_after_poll_step; [reflexivity |].
  apply raises_after_ack; [reflexivity |].
  apply raises_after_ack; [reflexivity |].
  exact Hk.
Qed.

Lemma raises_lift_bind {A B : Type} (a : A) (k : A -> M B) (e : exn) (ws : list byte) :
  raises_after (k a) e ws -> raises_after (bind (lift (Val a)) k) e ws.
Proof. intros Hk i. exact (Hk i). Qed.

End Refusals.

(** X6: a current whose counts are at least 16 and fit sixteen bits is
    commanded in full: [set_current] returns and writes 0x64, 0x64,
    0x1E, 0x64, 0x2C, then the high and low byte of the counts, 0x00,
    the sign byte, and 0x00. *)
Theorem set_current_sends (amps : float) (counts : Z) (i : instrument) :
  int_of_float (PrimFloat.mul SCALE (PrimFloat.abs amps)) = Val counts ->
  16 <= counts < 65536 ->
  exists high low i',
    int_of_byte high = counts / 256 /\
    int_of_byte low = counts mod 256 /\
    set_current amps i = (Val tt, i') /\
    writes (trace i') =
      writes (trace i) ++
      [x64; x64; x1e; x64; x2c; high; low; x00;
       if PrimFloat.leb 0%float amps then x01 else x00; x00].
Proof.
  intros Hcounts [Hlo Hhi].
  destruct (bytes1_in_range (counts / 256)) as (high & _ & Hhigh).
  { split; [apply Z.div_pos; lia | apply Z.div_lt_upper_bound; lia]. }
  destruct (bytes1_in_range (counts mod 256)) as (low & _ & Hlow).
  { apply Z.mod_pos_bound. lia. }
  set (sign := if PrimFloat.leb 0%float amps then x01 else x00).
  destruct (emits_start high low x00 sign i) as ([] & i' & Hrun & Hw).
  exists high, low, i'. split; [exact Hhigh |]. split; [exact Hlow |].
  split; [| exact Hw].
  unfold set_current, bind, lift.
  rewrite (proj2 (current_map_by_counts amps counts Hcounts) Hlo).
  rewrite <- Hrun. cbn [map]. rewrite Hhigh, Hlow.
  unfold sign. destruct (PrimFloat.leb 0%float amps); reflexivity.
Qed.

Lemma set_current_sends_witness :
  int_of_float (PrimFloat.mul SCALE (PrimFloat.abs (-2.0)%float)) = Val 648 /\
  16 <= 648 < 65536 /\
  exists high low i',
    int_of_byte high = 648 / 256 /\
    int_of_byte low = 648 mod 256 /\
    set_current (-2.0)%float (mock []) = (Val tt, i') /\
    writes (trace i') =
      writes (trace (mock [])) ++
      [x64; x64; x1e; x64; x2c; high; low; x00;
       if PrimFloat.leb 0%float (-2.0)%float then x01 else x00; x00].
Proof.
  split; [vm_compute; reflexivity |]. split; [lia |].
  apply (set_current_sends (-2.0)%float 648 (mock [])); [vm_compute; reflexivity | lia].
Defined.

(** X7: a current that [current_map] cannot encode is refused before
    the line is touched: [set_current] raises the encoder's exception
    and leaves the instrument exactly as it was.  This is the case of
    every current with counts below 16. *)
Theorem set_current_refuses_small (amps : float) (counts : Z) (i : instrument) :
  int_of_float (PrimFloat.mul SCALE (PrimFloat.abs amps)) = Val counts ->
  counts < 16 ->
  set_current amps i = (Raise ValueError, i).
Proof.
  intros Hcounts Hsmall.
  pose proof (scaled_counts_nonneg _ _ (abs_not_negative amps) Hcounts) as Hpos.
  unfold set_current, bind, lift.
  rewrite (proj1 (current_map_by_counts amps counts Hcounts)) by lia.
  reflexivity.
Qed.

Lemma set_current_refuses_small_witness :
  int_of_float (PrimFloat.mul SCALE (PrimFloat.abs 0.04%float)) = Val 12 /\
  12 < 16 /\
  set_current 0.04%float pulse_line = (Raise ValueError, pulse_line).
Proof.
  split; [vm_compute; reflexivity |]. split; [lia |].
  apply (set_current_refuses_small 0.04%float 12 pulse_line);
    [vm_compute; reflexivity | lia].
Defined.

(** X8: a current whose counts need more than sixteen bits stops the
    handshake half way: [set_current] raises [ValueError] at the high
    byte, after the five command bytes 0x64, 0x64, 0x1E, 0x64, 0x2C
    have gone out, and nothing of the payload is written. *)
Theorem set_current_breaks_off (amps : float) (counts : Z) (i : instrument) :
  int_of_float (PrimFloat.mul SCALE (PrimFloat.abs amps)) = Val counts ->
  65536 <= counts ->
  exists i',
    set_current amps i = (Raise ValueError, i') /\
    writes (trace i') = writes (trace i) ++ [x64; x64; x1e; x64; x2c].
Proof.
  intros Hcounts Hbig.
  unfold set_current, bind at 1, lift.
  rewrite (proj2 (current_map_by_counts amps counts Hcounts)) by lia.
  unfold _run_start_sequence. cbn [getitem nth_error].
  apply (raises_after_start_commands _ ValueError []).
  apply raises_lift_bind.
  apply raises_bind_left. apply raises_write. right.
  apply Z.div_le_lower_bound; lia.
Qed.

Lemma set_current_breaks_off_witness :
  int_of_float (PrimFloat.mul SCALE (PrimFloat.abs 203.0%float)) = Val 65792 /\
  65536 <= 65792 /\
  exists i',
    set_current 203.0%float (mock []) = (Raise ValueError, i') /\
    writes (trace i') = writes (trace (mock [])) ++ [x64; x64; x1e; x64; x2c].
Proof.
  split; [vm_compute; reflexivity |]. split; [lia |].
  apply (set_current_breaks_off 203.0%float 65792 (mock []));
    [vm_compute; reflexivity | lia].
Defined.

(** X9: a payload shorter than four entries makes the start sequence
    raise [IndexError] at the first missing entry, after the five
    command bytes and the entries that are there have been written. *)
Theorem start_sequence_short_payload (bs : list byte) (i : instrument) :
  (List.length bs < 4)%nat ->
  exists i',
    _run_start_sequence (map int_of_byte bs) i = (Raise IndexError, i') /\
    writes (trace i') = writes (trace i) ++ [x64; x64; x1e; x64; x2c] ++ bs.
Proof.
  intros Hlen. unfold _run_start_sequence.
  destruct bs as [| b0 [| b1 [| b2 [| b3 bs]]]]; [| | | | simpl in Hlen; lia];
    cbn [map getitem nth_error];
    apply raises_after_start_commands.
  - apply raises_bind_left. apply raises_lift.
  - apply raises_lift_bind. apply raises_after_ack; [apply bytes1_int_of_byte |].
    apply raises_bind_left. apply raises_lift.
  - do 2 (apply raises_lift_bind; apply raises_after_ack; [apply bytes1_int_of_byte |]).
    apply raises_bind_left. apply raises_lift.
  - do 3 (apply raises_lift_bind; apply raises_after_ack; [apply bytes1_int_of_byte |]).
    apply raises_bind_left. apply raises_lift.
Qed.

Lemma start_sequence_short_payload_witness :
  (List.length [x02; x29] < 4)%nat /\
  exists i',
    _run_start_sequence (map int_of_byte [x02; x29]) (mock []) = (Raise IndexError, i') /\
    writes (trace i') =
      writes (trace (mock [])) ++ [x64; x64; x1e; x64; x2c] ++ [x02; x29].
Proof.
  split; [simpl; lia |].
  apply (start_sequence_short_payload [x02; x29] (mock [])). simpl. lia.
Defined.

(* ===================================================================== *)
(** * More on polling and on the exchanges *)
(* ===================================================================== *)

(** X10: a poll succeeds on the first expected byte that arrives before
    any timeout.  The bytes ahead of it are read and dropped, the poll
    returns the expected byte, and what follows it on the line is left
    for the next read. *)
Theorem poll_finds (expected : Z) (junk : list byte) (m : byte)
  (rest : list (option byte)) (i : instrument) :
  pending i = map Some junk ++ Some m :: rest ->
  Forall (fun j => int_of_byte j <> expected) junk ->
  int_of_byte m = expected ->
  _poll_for_byte expected i =
    (Val (Some expected), mkInstrument rest (trace i ++ map Got junk ++ [Got m])).
Proof.
  destruct i as [p tr]. cbn [pending trace]. intros -> Hjunk Hm.
  revert tr. induction Hjunk as [| j junk Hj _ IH]; intros tr;
    rewrite _poll_for_byte_eq; cbn [pending trace map app].
  - rewrite Hm, Z.eqb_refl. reflexivity.
  - destruct (Z.eqb_spec (int_of_byte j) expected) as [Heq | _]; [contradiction |].
    rewrite IH. cbn [map app]. rewrite <- app_assoc. reflexivity.
Qed.

Lemma poll_finds_witness :
  let i := mock [x00; x07; x12; x33] in
  pending i = map Some [x00; x07] ++ Some x12 :: [Some x33] /\
  _poll_for_byte 0x12 i =
    (Val (Some 0x12),
     mkInstrument [Some x33] (trace i ++ map Got [x00; x07] ++ [Got x12])).
Proof.
  intros i. split; [reflexivity |].
  apply (poll_finds 0x12 [x00; x07] x12 [Some x33] i); [reflexivity | | reflexivity].
  repeat constructor; discriminate.
Defined.

(** X11: a poll gives up at the first timeout.  If only other bytes
    arrive before the line falls silent, they are read and dropped, the
    timeout is taken, and the poll returns [None] without raising. *)
Theorem poll_gives_up (expected : Z) (junk : list byte)
  (rest : list (option byte)) (i : instrument) :
  pending i = map Some junk ++ rest ->
  Forall (fun j => int_of_byte j <> expected) junk ->
  times_out rest = true ->
  _poll_for_byte expected i =
    (Val None, mkInstrument (tl rest) (trace i ++ map Got junk ++ [TimedOut])).
Proof.
  destruct i as [p tr]. cbn [pending trace]. intros -> Hjunk Hout.
  revert tr. induction Hjunk as [| j junk Hj _ IH]; intros tr;
    rewrite _poll_for_byte_eq; cbn [pending trace map app].
  - destruct rest as [| [b |] rest]; [reflexivity | discriminate Hout | reflexivity].
  - destruct (Z.eqb_spec (int_of_byte j) expected) as [Heq | _]; [contradiction |].
    rewrite IH. cbn [map app]. rewrite <- app_assoc. reflexivity.
Qed.

Lemma poll_gives_up_witness :
  let i := mock [x00; x07] in
  pending i = map Some [x00; x07] ++ [] /\
  _poll_for_byte 0x12 i =
    (Val None, mkInstrument (tl []) (trace i ++ map Got [x00; x07] ++ [TimedOut])).
Proof.
  intros i. split; [reflexivity |].
  apply (poll_gives_up 0x12 [x00; x07] [] i); [reflexivity | | reflexivity].
  repeat constructor; discriminate.
Defined.

Section Exchanges.

(** Known state in, explicit state out: one call of the source. *)
Ltac on_line :=
  repeat first
    [ rewrite _read_one_byte_eq; cbn [pending trace]
    | rewrite (write_raw_bytes_ok _ _ _ (bytes1_int_of_byte _)); cbn [pending trace]
    | match goal with
      | |- context [write_raw_bytes ?v ?j] =>
          let r := eval vm_compute in (bytes1 v) in
          match r with
          | Val ?b => rewrite (write_raw_bytes_ok v b j eq_refl)
          end
      end; cbn [pending trace]
    | rewrite _poll_for_byte_eq; cbn [pending trace Z.eqb int_of_byte Byte.to_N Z.of_N Pos.eqb] ].

(** The start sequence on a line that answers every step at once. *)
Lemma start_sequence_on_prompt_line
  (b0 b1 b2 b3 a1 a2 a4 a5 a6 a7 a8 a9 : byte)
  (rest : list (option byte)) (tr : list event) :
  _run_start_sequence (map int_of_byte [b0; b1; b2; b3])
    (mkInstrument
       (map Some [a1; a2; x12; a4; a5; a6; a7; a8; a9; x12] ++ rest) tr) =
  (Val tt,
   mkInstrument rest
     (tr ++ [Wrote x64; Got a1; Wrote x64; Got a2; Wrote x1e; Got x12;
             Wrote x64; Got a4; Wrote x2c; Got a5;
             Wrote b0; Got a6; Wrote b1; Got a7; Wrote b2; Got a8;
             Wrote b3; Got a9; Wrote x00; Got x12])).
Proof.
  unfold _run_start_sequence, bind, lift, ret.
  cbn [map app getitem nth_error]. on_line.
  repeat rewrite <- app_assoc. reflexivity.
Qed.

(** Stop and query on a line that answers every step at once. *)
Lemma stop_and_query_on_prompt_line
  (a1 byte1 byte2 byte3 a6 a7 : byte)
  (rest : list (option byte)) (tr : list event) :
  stop_and_query_field
    (mkInstrument
       (map Some [a1; x12; byte1; byte2; byte3; a6; a7; x12] ++ rest) tr) =
  (Val (PyFloat (decode_field (int_of_byte byte1) (int_of_byte byte2)
                   (int_of_byte byte3))),
   mkInstrument rest
     (tr ++ [Wrote x64; Got a1; Wrote x2b; Got x12; Wrote x0a;
             Got byte1; Wrote byte1; Got byte2; Wrote byte2;
             Got byte3; Wrote byte3;
             Wrote x4e; Got a6; Wrote x00; Wrote x64; Got a7;
             Wrote x82; Got x12])).
Proof.
  unfold stop_and_query_field, bind, lift, ret.
  cbn [map app]. on_line.
  repeat rewrite <- app_assoc. reflexivity.
Qed.

End Exchanges.

(** X12: on a line that answers every step at once (any byte for an
    ACK, 0x12 for a POLL) the start sequence takes exactly ten answers,
    one per step, and leaves the rest of the line unread; the exchange
    is write, read, write, read, ten times over. *)
Theorem start_sequence_in_step
  (b0 b1 b2 b3 a1 a2 a4 a5 a6 a7 a8 a9 : byte)
  (rest : list (option byte)) (i : instrument) :
  pending i = map Some [a1; a2; x12; a4; a5; a6; a7; a8; a9; x12] ++ rest ->
  _run_start_sequence (map int_of_byte [b0; b1; b2; b3]) i =
  (Val tt,
   mkInstrument rest
     (trace i ++ [Wrote x64; Got a1; Wrote x64; Got a2; Wrote x1e; Got x12;
                  Wrote x64; Got a4; Wrote x2c; Got a5;
                  Wrote b0; Got a6; Wrote b1; Got a7; Wrote b2; Got a8;
                  Wrote b3; Got a9; Wrote x00; Got x12])).
Proof.
  destruct i as [p tr]. cbn [pending trace]. intros ->.
  apply start_sequence_on_prompt_line.
Qed.

Lemma start_sequence_in_step_witness :
  pending pulse_line =
    map Some [x00; x00; x12; x00; x00; x00; x00; x00; x00; x12] ++
    map Some [x00; x12; x00; xde; x00; x00; x00; x12] /\
  pending (snd (_run_start_sequence (map int_of_byte [x01; x44; x00; x01]) pulse_line)) =
    map Some [x00; x12; x00; xde; x00; x00; x00; x12].
Proof.
  split; [reflexivity |].
  rewrite (start_sequence_in_step x01 x44 x00 x01 x00 x00 x00 x00 x00 x00 x00 x00
             (map Some [x00; x12; x00; xde; x00; x00; x00; x12]) pulse_line eq_refl).
  reflexivity.
Defined.

(** X13: on a line that answers every step at once, stop and query
    takes exactly eight answers, echoes each of the three captured
    bytes right after reading it, and returns the field decoded from
    them; the rest of the line is left unread. *)
Theorem stop_and_query_in_step
  (a1 byte1 byte2 byte3 a6 a7 : byte)
  (rest : list (option byte)) (i : instrument) :
  pending i = map Some [a1; x12; byte1; byte2; byte3; a6; a7; x12] ++ rest ->
  stop_and_query_field i =
  (Val (PyFloat (decode_field (int_of_byte byte1) (int_of_byte byte2)
                   (int_of_byte byte3))),
   mkInstrument rest
     (trace i ++ [Wrote x64; Got a1; Wrote x2b; Got x12; Wrote x0a;
                  Got byte1; Wrote byte1; Got byte2; Wrote byte2;
                  Got byte3; Wrote byte3;
                  Wrote x4e; Got a6; Wrote x00; Wrote x64; Got a7;
                  Wrote x82; Got x12])).
Proof.
  destruct i as [p tr]. cbn [pending trace]. intros ->.
  apply stop_and_query_on_prompt_line.
Qed.

Lemma stop_and_query_in_step_witness :
  let i := mock [x00; x12; x00; xde; x01; x00; x00; x12; x55] in
  pending i = map Some [x00; x12; x00; xde; x01; x00; x00; x12] ++ [Some x55] /\
  fst (stop_and_query_field i) = Val (PyFloat (-22.2)%float) /\
  pending (snd (stop_and_query_field i)) = [Some x55].
Proof.
  intros i. split; [reflexivity |].
  rewrite (stop_and_query_in_step x00 x00 xde x01 x00 x00 [Some x55] i eq_refl).
  split; reflexivity.
Defined.

(** X14: [stop_and_query_field] never raises, whatever the line does.
    It runs the stop-and-query script step for step and returns either
    "Query Failed", when the script was cut short at a capture, or the
    field decoded from the three captured bytes. *)
Theorem stop_and_query_follows_script (i : instrument) :
  exists v captured i',
    stop_and_query_field i = (Val v, i') /\
    run_script stop_script [] i = (Val captured, i') /\
    reading_of v captured.
Proof.
  destruct (stop_and_query_field_returns i) as (v & i' & Hrun).
  pose proof (stop_and_query_refines i) as [Hstate Hval].
  rewrite Hrun in Hstate, Hval. cbn [fst snd] in *.
  destruct (run_script stop_script [] i) as [[captured | e] i2];
    cbn [fst snd] in *; [| contradiction].
  subst i2. exists v, captured, i'.
  split; [exact Hrun |]. split; [reflexivity | exact Hval].
Qed.

(** X15: when all three captures succeed, whatever was dropped while
    polling, [stop_and_query_field] writes exactly ten bytes: 0x64,
    0x2B, 0x0A, the three captured bytes echoed in the order read, then
    0x4E, 0x00, 0x64, 0x82. *)
Theorem stop_and_query_echoes
  (i : instrument) (byte1 byte2 byte3 : byte) (rest : list (option byte)) :
  pending (snd (stop_prefix i)) = Some byte1 :: Some byte2 :: Some byte3 :: rest ->
  writes (trace (snd (stop_and_query_field i))) =
    writes (trace i) ++
    [x64; x2b; x0a; byte1; byte2; byte3; x4e; x00; x64; x82].
Proof.
  intros Hpending.
  rewrite stop_and_query_field_split. unfold bind at 1.
  destruct (emits_stop_prefix i) as ([] & [p tr] & Hrun & Hw).
  rewrite Hrun in *. cbn [snd pending trace] in *. subst p.
  destruct (query_tail_reading byte1 byte2 byte3 rest tr) as (i' & Htail & Hw').
  rewrite Htail. cbn [snd]. rewrite Hw', Hw, <- app_assoc. reflexivity.
Qed.

Lemma stop_and_query_echoes_witness :
  let i := mock [x00; x07; x12; x00; xde; x01] in
  pending (snd (stop_prefix i)) = Some x00 :: Some xde :: Some x01 :: [] /\
  writes (trace (snd (stop_and_query_field i))) =
    writes (trace i) ++ [x64; x2b; x0a; x00; xde; x01; x4e; x00; x64; x82].
Proof.
  intros i. split; [reflexivity |].
  exact (stop_and_query_echoes i x00 xde x01 [] eq_refl).
Defined.

(* ===================================================================== *)
(** * The test script against the class *)
(* ===================================================================== *)

Section ScriptAgainstClass.

Lemma agree_bind_same {A B C : Type} (R : B -> C -> Prop)
  (c1 c2 : M A) (k1 : A -> M B) (k2 : A -> M C) :
  (forall i, c1 i = c2 i) ->
  (forall a i, agree R (k1 a i) (k2 a i)) ->
  forall i, agree R (bind c1 k1 i) (bind c2 k2 i).
Proof.
  intros Hc Hk i. unfold bind. rewrite Hc.
  destruct (c2 i) as [[a | e] i1]; [apply Hk |].
  split; reflexivity.
Qed.

Lemma agree_eq {A : Type} (x y : result A * instrument) : agree eq x y -> x = y.
Proof.
  destruct x as [[a | e] i], y as [[b | e'] j]; intros [Hstate Hval];
    cbn [fst snd] in *; subst; try contradiction; reflexivity.
Qed.

Lemma script_poll_loop_same (expected : Z) :
  forall (turns : nat) (i : instrument),
    best_test.poll_loop turns expected i = poll_loop turns expected i.
Proof.
  induction turns as [| turns IH]; intros i; [reflexivity |].
  cbn [best_test.poll_loop poll_loop]. unfold bind.
  destruct (read_bytes 1 i) as [[data | e] i1]; [| reflexivity].
  destruct (lift (getitem data 0) i1) as [[b | e] i2]; [| reflexivity].
  destruct (int_of_byte b =? expected); [reflexivity | apply IH].
Qed.

Lemma script_poll_same (expected : Z) (i : instrument) :
  best_test.poll_for_byte expected i = _poll_for_byte expected i.
Proof.
  unfold best_test.poll_for_byte, _poll_for_byte, try_except_VisaIOError.
  rewrite script_poll_loop_same. reflexivity.
Qed.

Ltac same_step :=
  apply agree_bind_same;
  [ intros ?; first [reflexivity | apply script_poll_same] | intros ? ? ].

Lemma script_start_agrees (value_bytes : list Z) (i : instrument) :
  agree eq (best_test.run_start_sequence value_bytes i)
           (_run_start_sequence value_bytes i).
Proof.
  unfold best_test.run_start_sequence, _run_start_sequence.
  do 24 same_step. apply agree_ret. reflexivity.
Qed.

Lemma script_stop_agrees (i : instrument) :
  agree same_reading (best_test.stop_and_query_field i) (stop_and_query_field i).
Proof.
  unfold best_test.stop_and_query_field, stop_and_query_field.
  do 5 same_step.
  do 3 (apply agree_bind_same; [intros ?; reflexivity |];
        intros [? |] ?; [| apply agree_ret; left; split; reflexivity];
        same_step).
  do 7 same_step.
  apply agree_ret. right. eexists; eexists; eexists. split; reflexivity.
Qed.

(** Whatever the line does, the class's stop and query returns, and its
    writes begin with 0x64, 0x2B, 0x0A. *)
Lemma stop_and_query_writes (i : instrument) :
  exists v i' ws,
    stop_and_query_field i = (Val v, i') /\
    writes (trace i') = writes (trace i) ++ [x64; x2b; x0a] ++ ws.
Proof.
  rewrite stop_and_query_field_split. unfold bind at 1.
  destruct (emits_stop_prefix i) as ([] & [p tr] & Hrun & Hw). rewrite Hrun.
  cbn [trace] in Hw.
  assert (Hout : forall bs rest, (List.length bs < 3)%nat -> times_out rest = true ->
            exists v i' ws,
              query_tail (mkInstrument (map Some bs ++ rest) tr) = (Val v, i') /\
              writes (trace i') = writes (trace i) ++ [x64; x2b; x0a] ++ ws).
  { intros bs rest Hlen Hrest.
    destruct (query_tail_timeout bs rest tr Hlen Hrest) as [rest' H].
    eexists; eexists; exists bs. split; [exact H |].
    cbn [trace]. rewrite !writes_app, writes_echoes, Hw. cbn [writes].
    rewrite app_nil_r, <- app_assoc. reflexivity. }
  destruct p as [| [b1 |] p].
  { apply (Hout [] []); [simpl; lia | reflexivity]. }
  2:{ apply (Hout [] (None :: p)); [simpl; lia | reflexivity]. }
  destruct p as [| [b2 |] p].
  { apply (Hout [b1] []); [simpl; lia | reflexivity]. }
  2:{ apply (Hout [b1] (None :: p)); [simpl; lia | reflexivity]. }
  destruct p as [| [b3 |] p].
  { apply (Hout [b1; b2] []); [simpl; lia | reflexivity]. }
  2:{ apply (Hout [b1; b2] (None :: p)); [simpl; lia | reflexivity]. }
  destruct (query_tail_reading b1 b2 b3 p tr) as (i' & H & Hw').
  eexists; exists i'; exists [b1; b2; b3; x4e; x00; x64; x82].
  split; [exact H |]. rewrite Hw', Hw, <- app_assoc. reflexivity.
Qed.

End ScriptAgainstClass.

(** X16: the helpers of the test script do on every line exactly what
    the class's methods do: [read_one_byte] as [_read_one_byte],
    [poll_for_byte] as [_poll_for_byte], and [run_start_sequence] as
    [_run_start_sequence], in result and in every byte exchanged. *)
Theorem script_helpers_same (expected : Z) (value_bytes : list Z) (i : instrument) :
  best_test.read_one_byte i = _read_one_byte i /\
  best_test.poll_for_byte expected i = _poll_for_byte expected i /\
  best_test.run_start_sequence value_bytes i = _run_start_sequence value_bytes i.
Proof.
  split; [reflexivity |]. split; [apply script_poll_same |].
  apply agree_eq. apply script_start_agrees.
Qed.

(** X17: the script's [stop_and_query_field] exchanges on every line
    exactly the bytes the class's method exchanges, and neither raises.
    They fail together, the script with "Query Failed: No response" and
    the class with "Query Failed", or each returns what its own decoder
    makes of the same three captured bytes. *)
Theorem script_stop_same_exchange (i : instrument) :
  snd (best_test.stop_and_query_field i) = snd (stop_and_query_field i) /\
  exists script_value class_value,
    fst (best_test.stop_and_query_field i) = Val script_value /\
    fst (stop_and_query_field i) = Val class_value /\
    same_reading script_value class_value.
Proof.
  pose proof (script_stop_agrees i) as [Hstate Hval].
  split; [exact Hstate |].
  destruct (stop_and_query_field_returns i) as (cv & i' & Hrun).
  rewrite Hrun in Hval. cbn [fst] in Hval.
  destruct (fst (best_test.stop_and_query_field i)) as [sv | e] eqn:Hsv;
    [| contradiction].
  exists sv, cv. rewrite Hrun. repeat split. exact Hval.
Qed.

(** X18: the two decoders agree when the sign byte is 0x00 or 0x01 and
    give opposite fields for every other sign byte: the class negates
    for 0x01 only, the script for anything but 0x00. *)
Theorem decoders_part_above_one (byte1 byte2 byte3 : Z) :
  (byte3 = 0x00 \/ byte3 = 0x01 ->
   best_test.decode_field byte1 byte2 byte3 = decode_field byte1 byte2 byte3) /\
  (byte3 <> 0x00 -> byte3 <> 0x01 ->
   best_test.decode_field byte1 byte2 byte3 =
   PrimFloat.opp (decode_field byte1 byte2 byte3)).
Proof.
  unfold best_test.decode_field, decode_field. split.
  - intros [-> | ->]; reflexivity.
  - intros H0 H1.
    destruct (Z.eqb_spec byte3 0); [contradiction |].
    destruct (Z.eqb_spec byte3 1); [contradiction |]. reflexivity.
Qed.

Lemma decoders_part_above_one_witness :
  best_test.decode_field 0x00 0xDE 0x02 = (-22.2)%float /\
  decode_field 0x00 0xDE 0x02 = 22.2%float /\
  best_test.decode_field 0x00 0xDE 0x02 = PrimFloat.opp (decode_field 0x00 0xDE 0x02).
Proof.
  split; [vm_compute; reflexivity |]. split; [vm_compute; reflexivity |].
  apply (proj2 (decoders_part_above_one 0x00 0xDE 0x02)); discriminate.
Defined.

(** X19: once VISA has opened the resource and [time.sleep] accepts one
    second, the test script runs to its end whatever the device answers
    or fails to answer: it writes the start sequence with the captured
    payload 0x02, 0x29, 0x00, 0x00 of -2.0 A, and after the hold the
    stop sequence, which begins 0x64, 0x2B, 0x0A. *)
Theorem script_main_runs
  (sleep_rejects : float -> option exn) (lib : visa) (i : instrument) :
  ResourceManager lib = Val tt ->
  open_resource lib best_test.RESOURCE_NAME = Val i ->
  sleep_rejects 1.0%float = None ->
  exists i' ws,
    best_test.main sleep_rejects lib = Val (Some i') /\
    writes (trace i') =
      writes (trace i) ++
      [x64; x64; x1e; x64; x2c; x02; x29; x00; x00; x00] ++
      [x64; x2b; x0a] ++ ws.
Proof.
  intros Hrm Hopen Hsleep.
  unfold best_test.main. rewrite Hrm. cbn [bindR]. rewrite Hopen.
  unfold bind at 1.
  rewrite (agree_eq _ _ (script_start_agrees best_test.VALUE_NEG_2_0_A i)).
  destruct (emits_start x02 x29 x00 x00 i) as ([] & i1 & Hstart & Hw1).
  change (map int_of_byte [x02; x29; x00; x00]) with best_test.VALUE_NEG_2_0_A in Hstart.
  rewrite Hstart. unfold bind at 1, time_sleep. rewrite Hsleep.
  unfold log. fold (held 1.0%float i1).
  pose proof (script_stop_agrees (held 1.0%float i1)) as [Hstate Hval].
  destruct (stop_and_query_writes (held 1.0%float i1)) as (cv & i2 & ws & Hstop & Hw2).
  rewrite Hstop in Hstate, Hval. cbn [fst snd] in Hstate, Hval.
  destruct (best_test.stop_and_query_field (held 1.0%float i1)) as [[sv | e] i3];
    cbn [fst snd] in Hstate, Hval; [| contradiction].
  subst i3. exists i2, ws. split; [reflexivity |].
  rewrite Hw2. unfold held. cbn [trace]. rewrite writes_app. cbn [writes].
  rewrite app_nil_r, Hw1, <- app_assoc. reflexivity.
Qed.

Lemma script_main_runs_witness :
  let lib := mkVisa (Val tt) (fun _ => Val (mock [])) in
  ResourceManager lib = Val tt /\
  open_resource lib best_test.RESOURCE_NAME = Val (mock []) /\
  rejects_negative 1.0%float = None /\
  exists i' ws,
    best_test.main rejects_negative lib = Val (Some i') /\
    writes (trace i') =
      writes (trace (mock [])) ++
      [x64; x64; x1e; x64; x2c; x02; x29; x00; x00; x00] ++
      [x64; x2b; x0a] ++ ws.
Proof.
  intros lib. split; [reflexivity |]. split; [reflexivity |].
  split; [vm_compute; reflexivity |].
  apply (script_main_runs rejects_negative lib (mock []));
    [reflexivity | reflexivity | vm_compute; reflexivity].
Defined.

(* ===================================================================== *)
(** * The calibration sweep and the script part *)
(* ===================================================================== *)

Section SweepFacts.

(** An encodable current is commanded in full. *)
Lemma set_current_encodable (amps : float) (i : instrument) :
  encodable amps ->
  exists i' b0 b1 b2 b3,
    set_current amps i = (Val tt, i') /\
    writes (trace i') =
      writes (trace i) ++ [x64; x64; x1e; x64; x2c; b0; b1; b2; b3; x00].
Proof.
  intros (counts & Hcounts & Hlo & Hhi).
  destruct (bytes1_in_range (counts / 256)) as (high & _ & Hhigh).
  { split; [apply Z.div_pos; lia | apply Z.div_lt_upper_bound; lia]. }
  destruct (bytes1_in_range (counts mod 256)) as (low & _ & Hlow).
  { apply Z.mod_pos_bound. lia. }
  set (sign := if PrimFloat.leb 0%float amps then x01 else x00).
  destruct (emits_start high low x00 sign i) as ([] & i' & Hrun & Hw).
  exists i', high, low, x00, sign. split; [| exact Hw].
  unfold set_current, bind, lift.
  rewrite (proj2 (current_map_by_counts amps counts Hcounts) Hlo).
  rewrite <- Hrun. cbn [map]. rewrite Hhigh, Hlow.
  unfold sign. destruct (PrimFloat.leb 0%float amps); reflexivity.
Qed.

(** One turn of the sweep, for a current that is commanded and held. *)
Lemma sweep_turn (sleep_rejects : float -> option exn) (query : M value)
  (curr : float) (rest : list float) (i i1 : instrument) :
  set_current curr i = (Val tt, i1) ->
  sleep_rejects 2.0%float = None ->
  current_map_test sleep_rejects (Some query) (curr :: rest) i =
  match query (held 2.0%float i1) with
  | (Raise e, i2) => (inr (Exn e), i2)
  | (Val _, i2) => current_map_test sleep_rejects (Some query) rest i2
  end.
Proof.
  intros Hset Hsleep. cbn [current_map_test].
  unfold bind, time_sleep. rewrite Hset, Hsleep. reflexivity.
Qed.

End SweepFacts.

(** X20: with the global [magnet] unbound, as the module leaves it, the
    sweep gets no further than its first current.  When that current is
    encodable and [time.sleep] accepts two seconds, the sweep commands
    it in full and then raises [NameError]: no stop sequence follows and
    the other currents are never tried. *)
Theorem sweep_needs_magnet
  (sleep_rejects : float -> option exn) (curr : float) (rest : list float)
  (i : instrument) :
  encodable curr ->
  sleep_rejects 2.0%float = None ->
  exists i' b0 b1 b2 b3,
    current_map_test sleep_rejects None (curr :: rest) i =
      (inr (NameError "magnet"), i') /\
    writes (trace i') =
      writes (trace i) ++ [x64; x64; x1e; x64; x2c; b0; b1; b2; b3; x00].
Proof.
  intros Hcurr Hsleep.
  destruct (set_current_encodable curr i Hcurr) as (i1 & b0 & b1 & b2 & b3 & Hset & Hw).
  exists (held 2.0%float i1), b0, b1, b2, b3.
  cbn [current_map_test]. unfold bind at 1, time_sleep.
  rewrite Hset, Hsleep. split; [reflexivity |].
  unfold held. cbn [trace]. rewrite writes_app. cbn [writes].
  rewrite app_nil_r. exact Hw.
Qed.

Lemma sweep_needs_magnet_witness :
  encodable (-0.4)%float /\
  rejects_negative 2.0%float = None /\
  exists i' b0 b1 b2 b3,
    current_map_test rejects_negative None [(-0.4)%float; (-0.3)%float] (mock []) =
      (inr (NameError "magnet"), i') /\
    writes (trace i') =
      writes (trace (mock [])) ++ [x64; x64; x1e; x64; x2c; b0; b1; b2; b3; x00].
Proof.
  assert (He : encodable (-0.4)%float).
  { exists 129. split; [vm_compute; reflexivity | lia]. }
  split; [exact He |]. split; [vm_compute; reflexivity |].
  apply (sweep_needs_magnet rejects_negative (-0.4)%float [(-0.3)%float] (mock []) He).
  vm_compute. reflexivity.
Defined.

(** X21: with [magnet] bound to the controller itself, the sweep stops
    at the first current whose counts are below 16.  After a run of
    encodable currents, each pulsed and queried, that current raises
    [ValueError]; it and all that follow leave no trace on the line. *)
Theorem sweep_stops_at_small_current
  (sleep_rejects : float -> option exn) (before after : list float)
  (curr : float) (counts : Z) :
  Forall encodable before ->
  int_of_float (PrimFloat.mul SCALE (PrimFloat.abs curr)) = Val counts ->
  counts < 16 ->
  sleep_rejects 2.0%float = None ->
  forall i,
    fst (current_map_test sleep_rejects (Some stop_and_query_field)
           (before ++ curr :: after) i) = inr (Exn ValueError) /\
    snd (current_map_test sleep_rejects (Some stop_and_query_field)
           (before ++ curr :: after) i) =
    snd (current_map_test sleep_rejects (Some stop_and_query_field) before i).
Proof.
  intros Hbefore Hcounts Hsmall Hsleep.
  pose proof (scaled_counts_nonneg _ _ (abs_not_negative curr) Hcounts) as Hpos.
  induction Hbefore as [| c before Hc _ IH]; intros i.
  - cbn [app current_map_test]. unfold bind at 1, set_current, bind, lift.
    rewrite (proj1 (current_map_by_counts curr counts Hcounts)) by lia.
    split; reflexivity.
  - destruct (set_current_encodable c i Hc) as (i1 & b0 & b1 & b2 & b3 & Hset & _).
    destruct (stop_and_query_field_returns (held 2.0%float i1)) as (v & i2 & Hq).
    cbn [app].
    rewrite !(sweep_turn sleep_rejects stop_and_query_field c _ i i1 Hset Hsleep).
    rewrite Hq. apply IH.
Qed.

Lemma sweep_stops_at_small_current_witness :
  Forall encodable [(-0.1)%float] /\
  int_of_float (PrimFloat.mul SCALE (PrimFloat.abs (-0.0)%float)) = Val 0 /\
  0 < 16 /\
  rejects_negative 2.0%float = None /\
  fst (current_map_test rejects_negative (Some stop_and_query_field)
         ([(-0.1)%float] ++ (-0.0)%float :: [0.1%float]) pulse_line) =
    inr (Exn ValueError).
Proof.
  assert (He : Forall encodable [(-0.1)%float]).
  { constructor; [| constructor]. exists 32. split; [vm_compute; reflexivity | lia]. }
  split; [exact He |]. split; [vm_compute; reflexivity |]. split; [lia |].
  split; [vm_compute; reflexivity |].
  apply (sweep_stops_at_small_current rejects_negative [(-0.1)%float] [0.1%float]
           (-0.0)%float 0 He);
    [vm_compute; reflexivity | lia | vm_compute; reflexivity].
Defined.

(** X22: run as a script, [HolmarcMagnet.py] raises [NameError] at its
    first statement, whatever VISA, [time.sleep] and the sweep array
    are: it calls [HolmarcMagnet], and the module binds no such name
    (the class is [controller]). *)
Theorem script_part_stops_at_name
  (sleep_rejects : float -> option exn) (lib : visa) (currs : list float) :
  lookup_global "controller" module_globals = Some G_class_controller /\
  lookup_global "HolmarcMagnet" module_globals = None /\
  script_main sleep_rejects lib currs = inr (NameError "HolmarcMagnet").
Proof. repeat split. Qed.

(* ===================================================================== *)
(** * The decoded field over all byte values *)
(* ===================================================================== *)

Section FieldFacts.

Lemma byte_value_listed (b : byte) : In (int_of_byte b) byte_values.
Proof.
  unfold byte_values. apply in_map_iff.
  pose proof (int_of_byte_range b) as Hb.
  exists (Z.to_nat (int_of_byte b)). split; [apply Z2Nat.id; lia |].
  apply in_seq. lia.
Qed.

Lemma fields_all_checked :
  forallb (fun hi => forallb (fun lo => field_checks (256 * hi + lo)) byte_values)
    byte_values = true.
Proof. vm_compute. reflexivity. Qed.

Lemma field_checked (byte1 byte2 : byte) :
  field_checks (256 * int_of_byte byte1 + int_of_byte byte2) = true.
Proof.
  pose proof fields_all_checked as Hall.
  rewrite forallb_forall in Hall.
  specialize (Hall _ (byte_value_listed byte1)).
  rewrite forallb_forall in Hall.
  exact (Hall _ (byte_value_listed byte2)).
Qed.

Lemma abs_opp (x : float) : PrimFloat.abs (PrimFloat.opp x) = PrimFloat.abs x.
Proof.
  apply Prim2SF_inj. rewrite !FloatAxioms.abs_spec, FloatAxioms.opp_spec.
  destruct (Prim2SF x) as [s | s | | s m e]; reflexivity.
Qed.

(** The field of three bytes is the tenth of the magnitude its first two
    bytes spell, or the opposite of that. *)
Lemma decoded_field_cases (byte1 byte2 byte3 : byte) :
  let field :=
    PrimFloat.div
      (float_of_int (256 * int_of_byte byte1 + int_of_byte byte2)) 10.0%float in
  decode_field (int_of_byte byte1) (int_of_byte byte2) (int_of_byte byte3) = field \/
  decode_field (int_of_byte byte1) (int_of_byte byte2) (int_of_byte byte3) =
    PrimFloat.opp field.
Proof.
  intros field. unfold decode_field.
  rewrite lor_shiftl_8 by apply int_of_byte_range. fold field.
  destruct (int_of_byte byte3 =? 1); [right | left]; reflexivity.
Qed.

End FieldFacts.

(** X23: whatever three bytes are captured, the decoded field is a
    finite number between -6553.5 and 6553.5 mT. *)
Theorem decoded_field_in_range (byte1 byte2 byte3 : byte) :
  let field :=
    decode_field (int_of_byte byte1) (int_of_byte byte2) (int_of_byte byte3) in
  PrimFloat.is_finite field = true /\
  PrimFloat.leb (-6553.5)%float field = true /\
  PrimFloat.leb field 6553.5%float = true.
Proof.
  intros field.
  pose proof (field_checked byte1 byte2) as Hchk.
  unfold field_checks in Hchk.
  apply andb_prop in Hchk. destruct Hchk as [Hchk _].
  apply andb_prop in Hchk. destruct Hchk as [Hpos Hneg].
  assert (Hin : reading_in_range field = true).
  { unfold field.
    destruct (decoded_field_cases byte1 byte2 byte3) as [-> | ->]; assumption. }
  unfold reading_in_range in Hin.
  apply andb_prop in Hin. destruct Hin as [Hin Hhi].
  apply andb_prop in Hin. destruct Hin as [Hfin Hlo].
  repeat split; assumption.
Qed.

(** X24: decoding loses nothing of the magnitude: for all captured
    bytes, [round(10 * abs(field))] is [256 * byte1 + byte2] again, so
    different magnitudes never decode to the same field. *)
Theorem decoded_field_keeps_magnitude (byte1 byte2 byte3 : byte) :
  round
    (PrimFloat.mul
       (PrimFloat.abs
          (decode_field (int_of_byte byte1) (int_of_byte byte2) (int_of_byte byte3)))
       10.0%float) =
  Val (256 * int_of_byte byte1 + int_of_byte byte2).
Proof.
  pose proof (field_checked byte1 byte2) as Hchk.
  unfold field_checks in Hchk.
  apply andb_prop in Hchk. destruct Hchk as [_ Hback].
  destruct (decoded_field_cases byte1 byte2 byte3) as [-> | ->];
    rewrite ?abs_opp;
    (destruct (round _) as [m |]; [| discriminate]);
    apply Z.eqb_eq in Hback; subst m; reflexivity.
Qed.
